(** * Session registry, call router and conversation loop of the MCP agent

    A shallow embedding of package [pkg/mcp] ([LoadConfig], [NewClient],
    [Close], [GetTools], [CallTool], [parseToolName]), of [mcp_agent]
    ([main], [Agent.Run], [runInference], [runInferenceStreaming],
    [formatToolResult], [truncateString]), of the launcher's reading of
    the model list ([parseOllamaListOutput], [getRecommendModel]) and of
    the handlers of the filesystem tool server, followed by the properties
    of the specification that these functions decide and by further
    properties of the code.

    Go strings are byte sequences and are modelled by [string]; a Go
    [error] is modelled by its [Error()] text; a Go function returning
    [(T, error)] is modelled by [Result T]. *)

From Stdlib Require Import Ascii String List Arith Lia Permutation.
From stdpp Require Import base option list strings gmap pretty.

(** ** Results and errors *)

Definition error := string.

Inductive Result (A : Type) : Type :=
| Ok (a : A)
| Err (e : error).
Arguments Ok {A} a.
Arguments Err {A} e.

Definition isErr {A} (r : Result A) : bool :=
  match r with Ok _ => false | Err _ => true end.

(** ** The functions of Go's [strings] package used by the program *)

Module Strings.

(** [s[:n]] *)
Fixpoint take (n : nat) (s : string) : string :=
  match n, s with
  | S n', String c s' => String c (take n' s')
  | _, _ => EmptyString
  end.

(** [s[n:]] *)
Fixpoint drop (n : nat) (s : string) : string :=
  match n, s with
  | S n', String _ s' => drop n' s'
  | _, _ => s
  end.

Definition HasPrefix (s pre : string) : bool := String.prefix pre s.

Definition HasSuffix (s suf : string) : bool :=
  (String.length suf <=? String.length s)
  && String.eqb (drop (String.length s - String.length suf) s) suf.

(** [strings.Index]: the byte offset of the first occurrence of [substr]
    in [s]; Go's [-1] is [None]. *)
Fixpoint Index (s substr : string) : option nat :=
  if HasPrefix s substr then Some 0
  else match s with
       | EmptyString => None
       | String _ s' => S <$> Index s' substr
       end.

Definition Contains (s substr : string) : bool :=
  match Index s substr with Some _ => true | None => false end.

(** [strings.Count] for a separator of two bytes or more: the loop
    [i := Index(s, substr); if i == -1 return n; n++; s = s[i+len(substr):]].
    Every round shortens [s], so [length s + 1] rounds are enough. *)
Fixpoint count_loop (fuel : nat) (s substr : string) : nat :=
  match fuel with
  | O => 0
  | S fuel' =>
      match Index s substr with
      | None => 0
      | Some i =>
          S (count_loop fuel' (drop (i + String.length substr) s) substr)
      end
  end.

Definition Count (s substr : string) : nat :=
  count_loop (S (String.length s)) s substr.

(** [strings.Split] for a non-empty separator, the loop of [genSplit]:
    [m := Index(s, sep); if m < 0 break; a[i] = s[:m]; s = s[m+len(sep):]]
    and finally [a[i] = s]. *)
Fixpoint split_loop (fuel : nat) (s sep : string) : list string :=
  match fuel with
  | O => [s]
  | S fuel' =>
      match Index s sep with
      | None => [s]
      | Some m =>
          take m s :: split_loop fuel' (drop (m + String.length sep) s) sep
      end
  end.

Definition Split (s sep : string) : list string :=
  split_loop (S (String.length s)) s sep.

End Strings.

(** ** pkg/mcp: tool names *)

Definition separator : string := "__".

(** [fmt.Sprintf("%s__%s", serverName, tool.Name)] of [GetTools]. *)
Definition qualifiedName (serverName toolName : string) : string :=
  serverName +:+ separator +:+ toolName.

Definition parseToolName (name : string) : Result (string * string) :=
  let parts := Strings.Split name separator in
  if negb (length parts =? 2)
  then Err ("invalid tool name format: " +:+ name)
  else Ok (nth 0 parts EmptyString, nth 1 parts EmptyString).

(** The occurrences of a separator in a name, as the specification counts
    them: every byte offset at which the separator can be read, whether or
    not two of them overlap.  The program has no such function;
    [parseToolName] is compared with it. *)
Definition occursAt (s sep : string) (i : nat) : bool :=
  Strings.HasPrefix (Strings.drop i s) sep.

Definition occurrences (s sep : string) : list nat :=
  List.filter (occursAt s sep) (seq 0 (S (String.length s))).


(** ** Data of the collaborators

    The orchestration core forwards these values without looking inside
    them; they stay abstract. *)

Class Data := {
  (** [map[string]interface{}], the arguments of a tool call *)
  ToolArgs : Type;
  (** [tool.InputSchema] of a provider's tool *)
  Schema : Type;
  (** [api.ToolFunctionParameters] *)
  Params : Type;
  (** dynamic values that are neither [string] nor [[]byte]; the
      [*mcp.CallToolResult] of a provider is one *)
  Dyn : Type;
  (** [*mcp.ClientSession] *)
  Session : Type;
  (** everything outside the process: providers, model, terminal *)
  World : Type;
}.

(** [interface{}] as [formatToolResult] switches on it *)
Inductive any `{Data} : Type :=
| any_string (v : string)
| any_bytes (v : list Byte.byte)
| any_other (v : Dyn).

(** ** github.com/ollama/ollama/api: the fields the program reads or writes *)

Module api.
Section Types.
Context `{Data}.

Record ToolCallFunction := {
  Name : string;
  Arguments : ToolArgs;
}.

Record ToolCall := { Function : ToolCallFunction }.

Record Message := {
  Role : string;
  Content : string;
  ToolCalls : list ToolCall;
  ToolName : string;
}.

(** [api.Message{}] *)
Definition zeroMessage : Message :=
  {| Role := ""; Content := ""; ToolCalls := []; ToolName := "" |}.

Record ToolFunction := {
  tf_Name : string;
  Description : string;
  Parameters : Params;
}.

Record Tool := { Type_ : string; tool_Function : ToolFunction }.

Record ChatRequest := {
  Model : string;
  Stream : bool;
  Messages : list Message;
  Tools : list Tool;
}.

Record ChatResponse := {
  resp_Message : Message;
  Done : bool;
}.
End Types.
End api.

(** ** github.com/modelcontextprotocol/go-sdk/mcp *)

Module sdk.
Section Types.
Context `{Data}.

Record Tool := {
  Name : string;
  Description : string;
  InputSchema : Schema;
}.

Inductive Transport :=
| SSEClientTransport (Endpoint : string) (headers : option (gmap string string))
| CommandTransport (Path : string) (Args : list string) (Env : list string).
End Types.
End sdk.

(** ** Observable events and external operations *)

Section Effects.
Context `{Data}.

Inductive Event :=
| Stdout (text : string)
| Stderr (text : string)
| EvConnect (name : string) (r : Result Session)
| EvListTools (s : Session)
| EvCallTool (s : Session) (tool : string) (args : ToolArgs)
| EvClose (s : Session) (r : option error)
| EvChat (req : api.ChatRequest)
| EvAskOne.

(** A computation reads and changes the world and emits events. *)
Definition M (A : Type) : Type := World -> A * World * list Event.

Definition ret {A} (a : A) : M A := fun w => (a, w, []).

Definition bind {A B} (m : M A) (k : A -> M B) : M B :=
  fun w =>
    let '(a, w1, t1) := m w in
    let '(b, w2, t2) := k a w1 in
    (b, w2, t1 ++ t2).

Definition emit (e : Event) : M unit := fun w => (tt, w, [e]).
End Effects.

Declare Scope go_scope.
Delimit Scope go_scope with go.
Notation "'do' x <- m ; k" := (bind m (fun x => k))
  (at level 10, x name, m at level 100, k at level 200) : go_scope.
Notation "'do' ' p <- m ; k" := (bind m (fun x => match x with p => k end))
  (at level 10, p pattern, m at level 100, k at level 200) : go_scope.
Notation "'run' m ; k" := (bind m (fun _ => k))
  (at level 10, m at level 100, k at level 200) : go_scope.
Open Scope go_scope.

(** The collaborators behind the protocol boundary. *)
Class Externals `{Data} := {
  os_Environ : World -> list string;
  (** [mcpClient.Connect(ctx, transport, nil)] *)
  client_Connect : sdk.Transport -> World -> Result Session * World;
  session_ListTools : Session -> World -> Result (list sdk.Tool) * World;
  session_CallTool : Session -> string -> ToolArgs -> World -> Result Dyn * World;
  session_Close : Session -> World -> option error * World;
  (** [client.Chat(ctx, req, fn)]: the responses handed to [fn], in order,
      and the error returned at the end, if any *)
  ollama_Chat : api.ChatRequest -> World ->
                (list api.ChatResponse * option error) * World;
  (** [survey.AskOne(prompt, &userInput)] *)
  survey_AskOne : World -> Result string * World;
  (** [json.Marshal] of tool-call arguments; its error is discarded *)
  json_Marshal : ToolArgs -> string;
  (** [json.MarshalIndent(v, "", "  ")] *)
  json_MarshalIndent : Dyn -> Result string;
  (** [fmt.Sprintf("%v", v)] *)
  fmt_Sprint : Dyn -> string;
  (** [json.Marshal] of a schema, then [json.Unmarshal] into parameters *)
  json_Marshal_schema : Schema -> Result string;
  json_Unmarshal_params : string -> Result Params;
  (** [api.ToolFunctionParameters{Type: "object", Properties: {}}] *)
  objectParams : Params;
}.

(** Calls on the collaborators, each leaving its event in the trace. *)
Section Calls.
Context `{Externals}.

Definition print (text : string) : M unit := emit (Stdout text).
Definition eprint (text : string) : M unit := emit (Stderr text).

Definition Environ : M (list string) := fun w => (os_Environ w, w, []).

Definition Connect (name : string) (t : sdk.Transport) : M (Result Session) :=
  fun w => let '(r, w') := client_Connect t w in (r, w', [EvConnect name r]).

Definition ListTools (s : Session) : M (Result (list sdk.Tool)) :=
  fun w => let '(r, w') := session_ListTools s w in (r, w', [EvListTools s]).

Definition SessionCallTool (s : Session) (tool : string) (args : ToolArgs)
  : M (Result Dyn) :=
  fun w =>
    let '(r, w') := session_CallTool s tool args w in
    (r, w', [EvCallTool s tool args]).

Definition SessionClose (s : Session) : M (option error) :=
  fun w => let '(r, w') := session_Close s w in (r, w', [EvClose s r]).

Definition Chat (req : api.ChatRequest)
  : M (list api.ChatResponse * option error) :=
  fun w => let '(r, w') := ollama_Chat req w in (r, w', [EvChat req]).

Definition AskOne : M (Result string) :=
  fun w => let '(r, w') := survey_AskOne w in (r, w', [EvAskOne]).
End Calls.

Definition LF : string := String (ascii_of_nat 10) EmptyString.
Definition CR : string := String (ascii_of_nat 13) EmptyString.
Definition ESC : string := String (ascii_of_nat 27) EmptyString.

(** ** pkg/mcp: the configuration and the client *)

Module mcp.
Section Client.
Context `{Externals}.

Record MCPServer := {
  Command : string;
  Args : list string;
  Env : gmap string string;
  Type_ : string;
  URL : string;
  Headers : gmap string string;
}.

Record Config := { MCPServers : gmap string MCPServer }.

Definition ToolTypeFunction : string := "function".

Record Client := { sessions : gmap string Session }.

(** The transport that [connectToServer] builds before connecting. *)
Definition transportOf (server : MCPServer) : M sdk.Transport :=
  if String.eqb (Type_ server) "sse" then
    ret (sdk.SSEClientTransport (URL server)
           (if 0 <? size (Headers server) then Some (Headers server) else None))
  else
    do environ <- Environ;
    ret (sdk.CommandTransport (Command server) (Args server)
           (environ ++ ((fun kv => fst kv +:+ "=" +:+ snd kv)
                          <$> map_to_list (Env server)))).

(** [c.sessions[name] = session] updates the client in place; here the
    updated client is returned next to the error. *)
Definition connectToServer (c : Client) (name : string) (server : MCPServer)
  : M (Client * option error) :=
  do transport <- transportOf server;
  do r <- Connect name transport;
  match r with
  | Err e => ret (c, Some ("failed to connect to server: " +:+ e))
  | Ok session => ret ({| sessions := <[name := session]> (sessions c) |}, None)
  end.

(** The body of [for name, server := range config.MCPServers], over the
    entries in the order the iteration visits them. *)
Fixpoint connectAll (c : Client) (entries : list (string * MCPServer))
  : M Client :=
  match entries with
  | [] => ret c
  | (name, server) :: rest =>
      do '(c', err) <- connectToServer c name server;
      run match err with
          | Some e =>
              eprint ("Failed to connect to MCP server " +:+ name +:+ ": "
                      +:+ e +:+ LF)
          | None => ret tt
          end;
      connectAll c' rest
  end.

Definition NewClient (config : Config) : M (Result Client) :=
  do c <- connectAll {| sessions := ∅ |} (map_to_list (MCPServers config));
  ret (Ok c).

(** [fmt]'s [%v] of an [[]error] *)
Definition Sprint_errors (errs : list error) : string :=
  "[" +:+ String.concat " " errs +:+ "]".

Fixpoint closeAll (errs : list error) (entries : list (string * Session))
  : M (list error) :=
  match entries with
  | [] => ret errs
  | (_, session) :: rest =>
      do err <- SessionClose session;
      closeAll (match err with Some e => errs ++ [e] | None => errs end) rest
  end.

Definition Close (c : Client) : M (option error) :=
  do errs <- closeAll [] (map_to_list (sessions c));
  if 0 <? length errs
  then ret (Some ("failed to close some connections: " +:+ Sprint_errors errs))
  else ret None.

Definition convertToOllamaParameters (inputScheme : Schema) : Params :=
  match json_Marshal_schema inputScheme with
  | Err _ => objectParams
  | Ok data =>
      match json_Unmarshal_params data with
      | Err _ => objectParams
      | Ok params => params
      end
  end.

Definition openaiTool (serverName : string) (tool : sdk.Tool) : api.Tool :=
  {| api.Type_ := ToolTypeFunction;
     api.tool_Function :=
       {| api.tf_Name := qualifiedName serverName (sdk.Name tool);
          api.Description := sdk.Description tool;
          api.Parameters := convertToOllamaParameters (sdk.InputSchema tool) |} |}.

Fixpoint getToolsFrom (allTools : list api.Tool) (entries : list (string * Session))
  : M (list api.Tool) :=
  match entries with
  | [] => ret allTools
  | (serverName, session) :: rest =>
      do listToolsResult <- ListTools session;
      match listToolsResult with
      | Err e =>
          run eprint ("Failed to list tools from server " +:+ serverName
                      +:+ ": " +:+ e +:+ LF);
          getToolsFrom allTools rest
      | Ok tools =>
          getToolsFrom (allTools ++ (openaiTool serverName <$> tools)) rest
      end
  end.

Definition GetTools (c : Client) : M (Result (list api.Tool)) :=
  do allTools <- getToolsFrom [] (map_to_list (sessions c));
  ret (Ok allTools).

Definition CallTool (c : Client) (name : string) (args : ToolArgs)
  : M (Result any) :=
  match parseToolName name with
  | Err e => ret (Err e)
  | Ok (serverName, toolName) =>
      match sessions c !! serverName with
      | None => ret (Err ("server " +:+ serverName +:+ " not found"))
      | Some session =>
          do r <- SessionCallTool session toolName args;
          match r with
          | Err e => ret (Err ("failed to call tool: " +:+ e))
          | Ok result => ret (Ok (any_other result))
          end
      end
  end.
End Client.
End mcp.

(** ** mcp_agent: the agent

    The diagnostics written through [log] under [a.verbose] and the
    [isProcessing] flag that [InputLock]/[InputUnLock] toggle are never read
    by the loop and are left out. *)

Module agent.
Section Agent.
Context `{Externals}.

Record Agent := {
  mcpClient : mcp.Client;
  model : string;
  verbose : bool;
  stream : bool;
}.

Definition formatToolResult (result : any) : string :=
  match result with
  | any_string v => v
  | any_bytes v => string_of_list_byte v
  | any_other v =>
      match json_MarshalIndent v with
      | Err _ => fmt_Sprint v
      | Ok data => data
      end
  end.

Definition truncateString (s : string) (maxLen : nat) : string :=
  if String.length s <=? maxLen then s
  else Strings.take maxLen s +:+ "... (truncated)".

Fixpoint foldM {A B} (f : A -> B -> M A) (a : A) (l : list B) : M A :=
  match l with
  | [] => ret a
  | b :: l' => do a' <- f a b; foldM f a' l'
  end.

(** The blocking variant. *)
Definition runInference (a : Agent) (conversation : list api.Message)
    (tools : list api.Tool) : M (Result api.Message) :=
  let req := {| api.Model := model a; api.Messages := conversation;
                api.Tools := tools; api.Stream := false |} in
  do '(resps, err) <- Chat req;
  let responseMessage :=
    foldl (fun _ resp => api.resp_Message resp) api.zeroMessage resps in
  match err with
  | Some e => ret (Err e)
  | None => ret (Ok responseMessage)
  end.

Definition withContent (m : api.Message) (content : string) : api.Message :=
  {| api.Role := api.Role m; api.Content := content;
     api.ToolCalls := api.ToolCalls m; api.ToolName := api.ToolName m |}.

Definition withToolCalls (m : api.Message) (calls : list api.ToolCall)
  : api.Message :=
  {| api.Role := api.Role m; api.Content := api.Content m;
     api.ToolCalls := calls; api.ToolName := api.ToolName m |}.

(** The streaming variant: its callback, on the pair of the variables it captures,
    [finalMessage] and [contentBuilder]. *)
Definition respFunc (captured : api.Message * string) (resp : api.ChatResponse)
  : M (api.Message * string) :=
  let '(finalMessage, contentBuilder) := captured in
  let msg := api.resp_Message resp in
  do contentBuilder <-
    (if negb (String.eqb (api.Content msg) "") then
       run print (api.Content msg);
       ret (contentBuilder +:+ api.Content msg)
     else ret contentBuilder);
  do finalMessage <-
    (if api.Done resp then
       run print (CR +:+ LF);
       ret (withContent msg contentBuilder)
     else ret finalMessage);
  let finalMessage :=
    if 0 <? length (api.ToolCalls msg)
    then withToolCalls finalMessage
           (api.ToolCalls finalMessage ++ api.ToolCalls msg)
    else finalMessage in
  ret (finalMessage, contentBuilder).

Definition runInferenceStreaming (a : Agent) (conversation : list api.Message)
    (tools : list api.Tool) : M (Result api.Message) :=
  let req := {| api.Model := model a; api.Stream := true;
                api.Messages := conversation; api.Tools := tools |} in
  do '(resps, err) <- Chat req;
  do '(finalMessage, _) <- foldM respFunc (api.zeroMessage, EmptyString) resps;
  match err with
  | Some e => ret (Err ("chat streaming error: " +:+ e))
  | None => ret (Ok finalMessage)
  end.

(** [Run]: the body of [for _, toolCall := range message.ToolCalls]. *)
Definition callOne (a : Agent) (conversation : list api.Message)
    (toolCall : api.ToolCall) : M (list api.Message) :=
  let name := api.Name (api.Function toolCall) in
  let args := api.Arguments (api.Function toolCall) in
  let argsJSON := json_Marshal args in
  run print (ESC +:+ "[96mtool" +:+ ESC +:+ "[0m: " +:+ name +:+ "("
             +:+ argsJSON +:+ ")" +:+ LF);
  do r <- mcp.CallTool (mcpClient a) name args;
  do toolResult <-
    match r with
    | Err err =>
        run print (ESC +:+ "[91merror" +:+ ESC +:+ "[0m: " +:+ err +:+ LF);
        ret ("Error: " +:+ err)
    | Ok result =>
        let toolResult := formatToolResult result in
        run print (ESC +:+ "[92mresult" +:+ ESC +:+ "[0m: "
                   +:+ truncateString toolResult 500 +:+ LF);
        ret toolResult
    end;
  ret (conversation ++
       [{| api.Role := "tool"; api.Content := toolResult;
           api.ToolCalls := []; api.ToolName := name |}]).

(** What a loop hands back: the conversation it built and the error that
    [Run] returns, if the loop left through [return err]. [None] in front
    means that the iterations allowed by [fuel] were used up. *)
Definition Outcome : Type := option (list api.Message * option error).

(** [Run]: the inner [for], one round per iteration. *)
Fixpoint toolRounds (fuel : nat) (a : Agent) (tools : list api.Tool)
    (conversation : list api.Message) (message : api.Message) : M Outcome :=
  match fuel with
  | O => ret None
  | S fuel' =>
      run (if negb (stream a) && negb (String.eqb (api.Content message) "")
           then print (ESC +:+ "[93mOllama" +:+ ESC +:+ "[0m: "
                       +:+ api.Content message +:+ LF)
           else ret tt);
      if 0 <? length (api.ToolCalls message) then
        do conversation <- foldM (callOne a) conversation (api.ToolCalls message);
        do r <- runInference a conversation tools;
        match r with
        | Err err => ret (Some (conversation, Some err))
        | Ok message => toolRounds fuel' a tools (conversation ++ [message]) message
        end
      else ret (Some (conversation, None))
  end.

(** [Run]: the outer [for], one user input per iteration. *)
Fixpoint chatLoop (fuel : nat) (a : Agent) (tools : list api.Tool)
    (conversation : list api.Message) : M Outcome :=
  match fuel with
  | O => ret None
  | S fuel' =>
      do input <- AskOne;
      match input with
      | Err _ => ret (Some (conversation, None))
      | Ok userInput =>
          if String.eqb userInput "" then chatLoop fuel' a tools conversation
          else
            let userMessage :=
              {| api.Role := "user"; api.Content := userInput;
                 api.ToolCalls := []; api.ToolName := "" |} in
            let conversation := conversation ++ [userMessage] in
            do r <- (if stream a then
                       run print (ESC +:+ "[93mOllama" +:+ ESC +:+ "[0m:");
                       runInferenceStreaming a conversation tools
                     else runInference a conversation tools);
            match r with
            | Err err => ret (Some (conversation, Some err))
            | Ok message =>
                let conversation := conversation ++ [message] in
                do t <- toolRounds fuel' a tools conversation message;
                match t with
                | None => ret None
                | Some (conversation, Some err) =>
                    ret (Some (conversation, Some err))
                | Some (conversation, None) =>
                    chatLoop fuel' a tools conversation
                end
            end
      end
  end.

Definition Run (fuel : nat) (a : Agent) : M Outcome :=
  do r <- mcp.GetTools (mcpClient a);
  match r with
  | Err err => ret (Some ([], Some ("failed to get MCP tools: " +:+ err)))
  | Ok tools =>
      run print ("Chat with Ollama + MCP (use 'ctrl-c' to quit)" +:+ LF);
      run print ("Available tools: " +:+ pretty (length tools) +:+ LF);
      chatLoop fuel a tools []
  end.
End Agent.
End agent.

(** ** A scripted world

    A concrete instance of the collaborators, to run the program on: the
    user's lines and the model's replies are read off two scripts; a provider
    configured with a command connects, one configured for SSE is refused. *)

Module Scripted.

Record Fragment := {
  content : string;
  calls : list (string * string);
  done_ : bool;
}.

Record ScriptWorld := {
  inputs : list string;
  replies : list (list Fragment * option error);
}.

Definition data : Data :=
  {| ToolArgs := string; Schema := string; Params := string; Dyn := string;
     Session := string; World := ScriptWorld |}.
#[local] Existing Instance data.

Definition toolCall (c : string * string) : api.ToolCall :=
  {| api.Function := {| api.Name := fst c; api.Arguments := snd c |} |}.

Definition response (f : Fragment) : api.ChatResponse :=
  {| api.resp_Message :=
       {| api.Role := "assistant"; api.Content := content f;
          api.ToolCalls := toolCall <$> calls f; api.ToolName := "" |};
     api.Done := done_ f |}.

Definition connect (t : sdk.Transport) (w : ScriptWorld)
  : Result string * ScriptWorld :=
  match t with
  | sdk.SSEClientTransport _ _ => (Err "connection refused", w)
  | sdk.CommandTransport path _ _ => (Ok path, w)
  end.

Definition listTools (s : string) (w : ScriptWorld)
  : Result (list sdk.Tool) * ScriptWorld :=
  (Ok [ {| sdk.Name := "read_file"; sdk.Description := "reads a file";
           sdk.InputSchema := "{}" |} ], w).

Definition callTool (s tool args : string) (w : ScriptWorld)
  : Result string * ScriptWorld :=
  if String.eqb tool "read_file" then (Ok ("contents of " +:+ args), w)
  else (Err ("unknown tool " +:+ tool), w).

Definition close (s : string) (w : ScriptWorld) : option error * ScriptWorld :=
  if String.eqb s "bad" then (Some "exit status 1", w) else (None, w).

(** A reply that stops before the completion flag counts as cut off. *)
Definition complete (fs : list Fragment) : bool :=
  match last fs with Some f => done_ f | None => false end.

Definition chat (req : api.ChatRequest) (w : ScriptWorld)
  : (list api.ChatResponse * option error) * ScriptWorld :=
  match replies w with
  | [] => (([], Some "EOF"), w)
  | (fs, e) :: rest =>
      ((response <$> fs,
        match e with
        | Some _ => e
        | None => if complete fs then None else Some "unexpected EOF"
        end),
       {| inputs := inputs w; replies := rest |})
  end.

Definition askOne (w : ScriptWorld) : Result string * ScriptWorld :=
  match inputs w with
  | [] => (Err "EOF", w)
  | line :: rest => (Ok line, {| inputs := rest; replies := replies w |})
  end.

Definition externals : Externals :=
  {| os_Environ := fun _ => [];
     client_Connect := connect;
     session_ListTools := listTools;
     session_CallTool := callTool;
     session_Close := close;
     ollama_Chat := chat;
     survey_AskOne := askOne;
     json_Marshal := fun args => args;
     json_MarshalIndent := fun v =>
       if String.eqb v "" then Err "unsupported value" else Ok v;
     fmt_Sprint := fun v => v;
     json_Marshal_schema := fun s => Ok s;
     json_Unmarshal_params := fun s => Ok s;
     objectParams := "{}" |}.
#[local] Existing Instance externals.

(** One provider, [fs], is connected; the agent does not stream. *)
Definition client : mcp.Client := {| mcp.sessions := {[ "fs" := "fs" ]} |}.

Definition assistant : agent.Agent :=
  {| agent.mcpClient := client; agent.model := "qwen3:1.7b";
     agent.verbose := false; agent.stream := false |}.

Definition streamingAssistant : agent.Agent :=
  {| agent.mcpClient := client; agent.model := "qwen3:1.7b";
     agent.verbose := false; agent.stream := true |}.

Definition say (text : string) : Fragment :=
  {| content := text; calls := []; done_ := true |}.

Definition ask (tool args : string) : Fragment :=
  {| content := ""; calls := [(tool, args)]; done_ := true |}.

Definition script (lines : list string)
    (answers : list (list Fragment * option error)) : ScriptWorld :=
  {| inputs := lines; replies := answers |}.

Definition readCall : api.ToolCall := toolCall ("fs__read_file", "a.txt").
Definition ghostCall : api.ToolCall := toolCall ("ghost__read", "a.txt").

Definition firstReply : api.Message :=
  api.resp_Message (response (ask "fs__read_file" "a.txt")).
Definition lastReply : api.Message :=
  api.resp_Message (response (say "It says hello.")).

End Scripted.

(** ** What a trace and a result show

    The vocabulary in which the properties below are stated. *)

Section Observations.
Context `{Externals}.
Import mcp.

(** The registry after one connection attempt. *)
Definition connected (c : Client) (name : string) (r : Result Session) : Client :=
  match r with
  | Ok session => {| sessions := <[name := session]> (sessions c) |}
  | Err _ => c
  end.

(** What [CallTool] makes of the provider's answer. *)
Definition forwarded (r : Result Dyn) : Result any :=
  match r with
  | Ok result => Ok (any_other result)
  | Err e => Err ("failed to call tool: " +:+ e)
  end.

(** Sessions closed and close errors seen in a trace. *)
Definition closedSessions (tr : list Event) : list Session :=
  omap (fun ev => match ev with EvClose s _ => Some s | _ => None end) tr.

(** A catalog entry made from a tool that one of the sessions listed. *)
Definition catalogued (entries : list (string * Session)) (tool : api.Tool)
  : Prop :=
  exists serverName session t,
    (serverName, session) ∈ entries /\ tool = openaiTool serverName t.
End Observations.

Section Conversation.
Context `{Externals}.
Import agent.

(** The message that [Run] appends for a tool call. *)
Definition toolMessage (name content : string) : api.Message :=
  {| api.Role := "tool"; api.Content := content;
     api.ToolCalls := []; api.ToolName := name |}.

(** The text stored for the outcome of a call, and the line shown for it. *)
Definition storedText (r : Result any) : string :=
  match r with
  | Err err => "Error: " +:+ err
  | Ok result => formatToolResult result
  end.

Definition shownLine (r : Result any) : string :=
  match r with
  | Err err => ESC +:+ "[91merror" +:+ ESC +:+ "[0m: " +:+ err +:+ LF
  | Ok result =>
      ESC +:+ "[92mresult" +:+ ESC +:+ "[0m: "
      +:+ truncateString (formatToolResult result) 500 +:+ LF
  end.

Definition callLine (toolCall : api.ToolCall) : string :=
  ESC +:+ "[96mtool" +:+ ESC +:+ "[0m: " +:+ api.Name (api.Function toolCall)
  +:+ "(" +:+ json_Marshal (api.Arguments (api.Function toolCall)) +:+ ")" +:+ LF.

(** A tool message answers a call when it carries the call's tool name. *)
Definition answers (toolCall : api.ToolCall) (m : api.Message) : Prop :=
  api.Role m = "tool" /\ api.ToolName m = api.Name (api.Function toolCall).

(** A conversation in which every assistant message is followed at once by
    one answer per tool call, in the order of the calls, and no tool
    message stands anywhere else. *)
Inductive Correlated : list api.Message -> Prop :=
| correlated_nil : Correlated []
| correlated_user u rest :
    api.Role u = "user" -> api.ToolCalls u = [] ->
    Correlated rest -> Correlated (u :: rest)
| correlated_assistant m results rest :
    api.Role m = "assistant" ->
    Forall2 answers (api.ToolCalls m) results ->
    Correlated rest -> Correlated (m :: results ++ rest).

Definition hasRole (role : string) (m : api.Message) : bool :=
  String.eqb (api.Role m) role.

Definition toolMessages (conversation : list api.Message) : nat :=
  length (List.filter (hasRole "tool") conversation).

Definition toolCallsIssued (conversation : list api.Message) : nat :=
  list_sum ((fun m => length (api.ToolCalls m))
              <$> List.filter (hasRole "assistant") conversation).

(** The inference provider keeps to its interface: what it sends are
    assistant messages, and an exchange that ends without error ends with
    a response whose completion flag is set. *)
Definition providerKeepsInterface : Prop :=
  forall req w,
    let '((resps, err), _) := ollama_Chat req w in
    Forall (fun resp => api.Role (api.resp_Message resp) = "assistant") resps
    /\ (err = None ->
        exists before final, resps = before ++ [final] /\ api.Done final = true).

(** [n] rounds of tool calls and re-inference lead from one message to
    another; the traces of the rounds are left aside. *)
Inductive Rounds (a : Agent) (tools : list api.Tool)
  : nat -> list api.Message -> api.Message -> World ->
    list api.Message -> api.Message -> World -> Prop :=
| rounds_O conversation message w :
    Rounds a tools 0 conversation message w conversation message w
| rounds_S n conversation message w conversation1 w1 message1 w2
           conversation' message' w' :
    api.ToolCalls message <> [] ->
    (foldM (callOne a) conversation (api.ToolCalls message) w).1
      = (conversation1, w1) ->
    (runInference a conversation1 tools w1).1 = (Ok message1, w2) ->
    Rounds a tools n (conversation1 ++ [message1]) message1 w2
      conversation' message' w' ->
    Rounds a tools (S n) conversation message w conversation' message' w'.

Definition userMessage (userInput : string) : api.Message :=
  {| api.Role := "user"; api.Content := userInput;
     api.ToolCalls := []; api.ToolName := "" |}.

(** The first inference of a turn. *)
Definition firstInference (a : Agent) (conversation : list api.Message)
    (tools : list api.Tool) : M (Result api.Message) :=
  if stream a then runInferenceStreaming a conversation tools
  else runInference a conversation tools.
(** The text of a stream, in arrival order, and the message that the
    streaming variant returns for a stream ending in [final]. *)
Definition streamedText (resps : list api.ChatResponse) : string :=
  foldr String.append EmptyString
    ((fun resp => api.Content (api.resp_Message resp)) <$> resps).

Definition streamedMessage (before : list api.ChatResponse)
    (final : api.ChatResponse) : api.Message :=
  {| api.Role := api.Role (api.resp_Message final);
     api.Content := streamedText (before ++ [final]);
     api.ToolCalls := api.ToolCalls (api.resp_Message final)
                      ++ api.ToolCalls (api.resp_Message final);
     api.ToolName := api.ToolName (api.resp_Message final) |}.
(** What the inner loop prints of a reply before looking at its calls. *)
Definition shownReply (a : Agent) (message : api.Message) : list Event :=
  if negb (stream a) && negb (String.eqb (api.Content message) "")
  then [Stdout (ESC +:+ "[93mOllama" +:+ ESC +:+ "[0m: "
                +:+ api.Content message +:+ LF)]
  else [].
(** What the outer loop prints before a streamed reply. *)
Definition shownPrompt (a : Agent) : list Event :=
  if stream a then [Stdout (ESC +:+ "[93mOllama" +:+ ESC +:+ "[0m:")] else [].
(** An inference call returned the error [e]. *)
Definition inferenceFailed (a : Agent) (e : error) : Prop :=
  exists conversation tools w w' t,
    firstInference a conversation tools w = (Err e, w', t)
    \/ runInference a conversation tools w = (Err e, w', t).
End Conversation.

(** ** More of what a trace and a result show *)

Section MoreObservations.
Context `{Externals}.
Import mcp.

(** The line that [NewClient] writes for a provider that did not connect. *)
Definition failureReport (name : string) (e : error) : string :=
  "Failed to connect to MCP server " +:+ name +:+ ": "
  +:+ ("failed to connect to server: " +:+ e) +:+ LF.

Definition stderrLines (tr : list Event) : list string :=
  omap (fun ev => match ev with Stderr text => Some text | _ => None end) tr.

Definition failedConnects (tr : list Event) : list (string * error) :=
  omap (fun ev => match ev with
                  | EvConnect name (Err e) => Some (name, e)
                  | _ => None
                  end) tr.

Definition connectedPairs (tr : list Event) : list (string * Session) :=
  omap (fun ev => match ev with
                  | EvConnect name (Ok s) => Some (name, s)
                  | _ => None
                  end) tr.

End MoreObservations.

Section MoreConversation.
Context `{Externals}.
Import agent.

(** The tool calls of a whole stream, in arrival order. *)
Definition streamedCalls (resps : list api.ChatResponse) : list api.ToolCall :=
  concat ((fun resp => api.ToolCalls (api.resp_Message resp)) <$> resps).


End MoreConversation.

Section ProvenanceDef.
Context `{Externals}.
Import agent.

(** Where a message of the conversation can come from: a non-empty line of
    the user, the answer to a tool call, or a reply of the model. *)
Definition produced (a : Agent) (tools : list api.Tool) (m : api.Message) : Prop :=
  (exists userInput, userInput <> EmptyString /\ m = userMessage userInput)
  \/ (exists name content, m = toolMessage name content)
  \/ (exists conversation w,
         (firstInference a conversation tools w).1.1 = Ok m
         \/ (runInference a conversation tools w).1.1 = Ok m).
End ProvenanceDef.

(** ** mcp_agent: the program around the agent

    [LoadConfig] of pkg/mcp and [main] of mcp_agent, with what [main]
    itself writes through [log]. *)

(** What [main] needs of the system besides the collaborators. *)
Class Startup `{Externals} := {
  (** [os.Stat(name)] returned no error *)
  os_Stat_ok : string -> World -> bool;
  os_Getwd : World -> string;
  filepath_Join : string -> string -> string;
  os_ReadFile : string -> World -> Result string * World;
  (** [json.Unmarshal(data, &config)] *)
  json_Unmarshal_config : string -> Result mcp.Config;
  api_ClientFromEnvironment : World -> option error * World;
  (** what the logger, set up with [log.LstdFlags | log.Lshortfile], writes
      before a message logged at a line of [main]: date, time, file, line *)
  log_header : World -> nat -> string;
}.

Module program.
Section Program.
Context `{Startup}.

Record Flags := {
  verbose : bool;
  model : string;
  stream : bool;
  configPath : string;
}.

Definition LoadConfig (path : string) : M (Result mcp.Config) :=
  fun w =>
    let '(r, w') := os_ReadFile path w in
    match r with
    | Err err => (Err ("failed to read config file: " +:+ err), w', [])
    | Ok data =>
        match json_Unmarshal_config data with
        | Err err => (Err ("failed to parse config file: " +:+ err), w', [])
        | Ok config => (Ok config, w', [])
        end
    end.

(** The logger ends a message with a line end unless it has one. *)
Definition logLine (message : string) : string :=
  if Strings.HasSuffix message LF then message else message +:+ LF.

(** A message logged at a line of [main]: under [-verbose] the logger
    writes to the error stream, with its header; otherwise to the standard
    output, bare. *)
Definition logOutput (flags : Flags) (line : nat) (message : string) : M unit :=
  fun w =>
    (tt, w,
     [if verbose flags then Stderr (log_header w line +:+ logLine message)
      else Stdout (logLine message)]).

(** [if *verbose { log.Println(...) }] *)
Definition logVerbose (flags : Flags) (line : nat) (message : string) : M unit :=
  if verbose flags then logOutput flags line message else ret tt.

(** [log.Fatalf]: the message is logged; the exit that follows is the
    caller's. *)
Definition Fatalf (flags : Flags) (line : nat) (message : string) : M unit :=
  logOutput flags line message.

Definition NewAgent (mcpClient : mcp.Client) (model : string)
    (verbose stream : bool) : agent.Agent :=
  {| agent.mcpClient := mcpClient; agent.model := model;
     agent.verbose := verbose; agent.stream := stream |}.

(** The configuration file that [main] settles on. *)
Definition chooseConfig (flags : Flags) : M string :=
  fun w =>
    if String.eqb (configPath flags) "" then
      if os_Stat_ok "map.json" w then ("map.json", w, [])
      else (filepath_Join (os_Getwd w +:+ "/mcp_agent") "map.json", w, [])
    else (configPath flags, w, []).

(** [ollamaClient, err := api.ClientFromEnvironment()] *)
Definition ClientFromEnvironment : M (option error) :=
  fun w => let '(e, w') := api_ClientFromEnvironment w in (e, w', []).

(** [main], up to its exit status. [log.Fatalf] exits at once, so the
    deferred [Close] runs only where [main] returns. *)
Definition main (fuel : nat) (flags : Flags) : M (option nat) :=
  run logVerbose flags 28 ("Verbose logging enabled" +:+ LF);
  do cfgPath <- chooseConfig flags;
  run logVerbose flags 51 ("Loading MCP config from: " +:+ cfgPath);
  do loaded <- LoadConfig cfgPath;
  match loaded with
  | Err err =>
      run Fatalf flags 55 ("Failed to load MCP config: " +:+ err);
      ret (Some 1)
  | Ok config =>
      do created <- mcp.NewClient config;
      match created with
      | Err err =>
          run Fatalf flags 62 ("Failed to create MCP client: " +:+ err);
          ret (Some 1)
      | Ok mcpClient =>
          run logVerbose flags 67 ("MCP client initialized" +:+ LF);
          do err <- ClientFromEnvironment;
          match err with
          | Some err =>
              run Fatalf flags 73
                    ("Failed to initialize Ollama client: " +:+ err);
              ret (Some 1)
          | None =>
              run logVerbose flags 76 ("Ollama client initialized" +:+ LF);
              let a := NewAgent mcpClient (model flags) (verbose flags)
                         (stream flags) in
              do outcome <- agent.Run fuel a;
              match outcome with
              | None => ret None
              | Some (_, err) =>
                  run match err with
                      | Some e => print ("Error: " +:+ e +:+ LF)
                      | None => ret tt
                      end;
                  run mcp.Close mcpClient;
                  ret (Some 0)
              end
          end
      end
  end.
End Program.
End program.

Section ProgramObservations.
Context `{Startup}.
Import program.

(** An event that opens or closes a session. *)
Definition lifecycleEvent (ev : Event) : Prop :=
  match ev with
  | EvConnect _ _ | EvClose _ _ => True
  | _ => False
  end.

(** What [main] has logged, under [-verbose], before it loads the
    configuration. *)
Definition startupDiagnostics (flags : Flags) (w : World) : list Event :=
  if verbose flags then
    [Stderr (log_header w 28 +:+ "Verbose logging enabled" +:+ LF);
     Stderr (log_header w 51
             +:+ logLine ("Loading MCP config from: "
                          +:+ (chooseConfig flags w).1.1))]
  else [].

(** The line of a fatal error logged at a line of [main]. *)
Definition fatalLine (flags : Flags) (w : World) (line : nat)
    (message : string) : Event :=
  if verbose flags then Stderr (log_header w line +:+ logLine message)
  else Stdout (logLine message).

(** What a guarded log call leaves. *)
Definition diagnostic (flags : Flags) (w : World) (line : nat)
    (message : string) : list Event :=
  if verbose flags then [Stderr (log_header w line +:+ logLine message)] else [].
End ProgramObservations.

(** ** The scripted world of the program

    The scripted world, extended to what [main] needs: [map.json] is there
    and configures the provider [fs], started by a command, and the provider
    [remote], reached over SSE; the model client cannot be set up when no
    reply is scripted. *)

Module ScriptedProgram.
Import Scripted.
#[local] Existing Instance data.
#[local] Existing Instance externals.

Definition fsServer : mcp.MCPServer :=
  {| mcp.Command := "fs"; mcp.Args := []; mcp.Env := ∅; mcp.Type_ := "";
     mcp.URL := ""; mcp.Headers := ∅ |}.

Definition remoteServer : mcp.MCPServer :=
  {| mcp.Command := ""; mcp.Args := []; mcp.Env := ∅; mcp.Type_ := "sse";
     mcp.URL := "http://localhost:8080/sse"; mcp.Headers := ∅ |}.

Definition config : mcp.Config :=
  {| mcp.MCPServers := {[ "fs" := fsServer; "remote" := remoteServer ]} |}.

Definition readFile (path : string) (w : ScriptWorld)
  : Result string * ScriptWorld :=
  if String.eqb path "map.json" then (Ok "{...}", w)
  else (Err ("open " +:+ path +:+ ": no such file or directory"), w).

Definition startup : Startup :=
  {| os_Stat_ok := fun name _ => String.eqb name "map.json";
     os_Getwd := fun _ => "/work";
     filepath_Join := fun a b => a +:+ "/" +:+ b;
     os_ReadFile := readFile;
     json_Unmarshal_config := fun data =>
       if String.eqb data "" then Err "unexpected end of JSON input"
       else Ok config;
     api_ClientFromEnvironment := fun w =>
       match replies w with
       | [] => (Some "invalid OLLAMA_HOST", w)
       | _ => (None, w)
       end;
     log_header := fun _ line =>
       "2025/01/01 00:00:00 main.go:" +:+ pretty line +:+ ": " |}.

Definition flags : program.Flags :=
  {| program.verbose := false; program.model := "qwen3:1.7b";
     program.stream := false; program.configPath := "" |}.

Definition flagsElsewhere : program.Flags :=
  {| program.verbose := false; program.model := "qwen3:1.7b";
     program.stream := false; program.configPath := "nowhere.json" |}.

(** A model that sends what is scripted, complete or not. *)
Definition rawChat (req : api.ChatRequest) (w : ScriptWorld)
  : (list api.ChatResponse * option error) * ScriptWorld :=
  match replies w with
  | [] => (([], Some "EOF"), w)
  | (fs, e) :: rest =>
      ((response <$> fs, e), {| inputs := inputs w; replies := rest |})
  end.

Definition rawExternals : Externals :=
  {| os_Environ := fun _ => [];
     client_Connect := connect;
     session_ListTools := listTools;
     session_CallTool := callTool;
     session_Close := close;
     ollama_Chat := rawChat;
     survey_AskOne := askOne;
     json_Marshal := fun args => args;
     json_MarshalIndent := fun v =>
       if String.eqb v "" then Err "unsupported value" else Ok v;
     fmt_Sprint := fun v => v;
     json_Marshal_schema := fun s => Ok s;
     json_Unmarshal_params := fun s => Ok s;
     objectParams := "{}" |}.

Definition noClient : mcp.Client := {| mcp.sessions := ∅ |}.

Definition loneAssistant : agent.Agent :=
  {| agent.mcpClient := noClient; agent.model := "qwen3:1.7b";
     agent.verbose := false; agent.stream := false |}.


Definition pending (text : string) (tool args : string) : Fragment :=
  {| content := text; calls := [(tool, args)]; done_ := false |}.
End ScriptedProgram.

(** ** [strings.TrimSpace] and [strings.Fields]

    Both have a fast path for ASCII and hand a string in which they meet a
    byte of a multi-byte character to the general functions, with
    [unicode.IsSpace]; those stay abstract. *)

Class Unicode := {
  (** [strings.TrimFunc(s, unicode.IsSpace)] *)
  TrimFunc_IsSpace : string -> string;
  (** [strings.TrimRightFunc(s, unicode.IsSpace)] *)
  TrimRightFunc_IsSpace : string -> string;
  (** [strings.FieldsFunc(s, unicode.IsSpace)] *)
  FieldsFunc_IsSpace : string -> list string;
}.

Module Space.
Section Space.
Context `{Unicode}.

(** [asciiSpace[c] != 0]: tab, line feed, vertical tab, form feed,
    carriage return, space *)
Definition asciiSpace (c : ascii) : bool :=
  let n := nat_of_ascii c in
  (n =? 9) || (n =? 10) || (n =? 11) || (n =? 12) || (n =? 13) || (n =? 32).

(** [c >= utf8.RuneSelf] *)
Definition RuneSelf (c : ascii) : bool := 128 <=? nat_of_ascii c.

Fixpoint reverse (s : string) : string :=
  match s with
  | EmptyString => EmptyString
  | String c s' => reverse s' +:+ String c EmptyString
  end.

(** Where a loop of [TrimSpace] stops: at a byte that is no space, or at
    the end, with what is left; or at a byte of a multi-byte character. *)
Inductive Scan :=
| Stopped (rest : string)
| MultiByte (rest : string).

(** [for ; start < len(s); start++]: the bytes from [start] on. *)
Fixpoint scanSpaces (s : string) : Scan :=
  match s with
  | EmptyString => Stopped EmptyString
  | String c s' =>
      if RuneSelf c then MultiByte s
      else if asciiSpace c then scanSpaces s'
      else Stopped s
  end.

(** The second loop, [for ; stop > start; stop--], reads [s[start:stop]]
    from its end. *)
Definition TrimSpace (s : string) : string :=
  match scanSpaces s with
  | MultiByte rest => TrimFunc_IsSpace rest
  | Stopped rest =>
      match scanSpaces (reverse rest) with
      | MultiByte kept => TrimRightFunc_IsSpace (reverse kept)
      | Stopped kept => reverse kept
      end
  end.

(** [setBits >= utf8.RuneSelf]: some byte has its high bit set. *)
Fixpoint anyByte (p : ascii -> bool) (s : string) : bool :=
  match s with
  | EmptyString => false
  | String c s' => p c || anyByte p s'
  end.

(** The ASCII path of [Fields]: [field] is [s[fieldStart:i]], the bytes of
    the field being read; a space ends a field that has bytes, and is
    skipped otherwise; what is read at the end is the last field. *)
Fixpoint fieldsLoop (field : string) (s : string) : list string :=
  match s with
  | EmptyString => if String.eqb field "" then [] else [field]
  | String c s' =>
      if asciiSpace c then
        if String.eqb field "" then fieldsLoop "" s'
        else field :: fieldsLoop "" s'
      else fieldsLoop (field +:+ String c EmptyString) s'
  end.

Definition Fields (s : string) : list string :=
  if anyByte RuneSelf s then FieldsFunc_IsSpace s else fieldsLoop "" s.
End Space.
End Space.

(** ** The launcher: the models that [ollama list] shows *)

Module launcher.
Section Launcher.
Context `{Unicode}.

(** The body of the loop over the lines. *)
Definition addLine (models : list string) (line : string) : list string :=
  let line := Space.TrimSpace line in
  if String.eqb line "" || Strings.HasPrefix line "NAME"
     || Strings.Contains line "----"
  then models
  else
    let fields := Space.Fields line in
    match fields with
    | [] => models
    | modelName :: _ =>
        if negb (String.eqb modelName "Name")
           && negb (Strings.Contains modelName "----")
        then models ++ [modelName]
        else models
    end.

Definition parseOllamaListOutput (output : string) : list string :=
  let lines := Strings.Split (Space.TrimSpace output) LF in
  foldl addLine [] lines.

Definition getRecommendModel (models : list string) : string :=
  match models with
  | model :: _ => model
  | [] => ""
  end.
End Launcher.
End launcher.

Section TextObservations.
Context `{Unicode}.
Import Space.

(** A string of ASCII bytes only. *)
Definition isASCII (s : string) : Prop := anyByte RuneSelf s = false.

(** Some byte of the string is an ASCII space. *)
Definition hasSpace (s : string) : bool := anyByte asciiSpace s.

(** Every byte of the string is an ASCII space. *)
Definition blank (s : string) : bool := negb (anyByte (fun c => negb (asciiSpace c)) s).

(** The string starts with a byte that is no ASCII space. *)
Definition startsInk (s : string) : bool :=
  match s with
  | EmptyString => false
  | String c _ => negb (asciiSpace c)
  end.

(** The string ends with a byte that is no ASCII space. *)
Definition endsInk (s : string) : bool := startsInk (reverse s).

(** A name that the launcher can show: not empty, without space, not a
    header word, without a rule. *)
Definition wellFormedName (name : string) : Prop :=
  name <> EmptyString /\ hasSpace name = false
  /\ Strings.HasPrefix name "NAME" = false /\ name <> "Name"
  /\ Strings.Contains name "----" = false.
End TextObservations.

Section TableDef.
Context `{Unicode}.

(** A text made of lines, each ended by a line feed. *)
Definition unlines (lines : list string) : string :=
  foldr (fun line rest => line +:+ LF +:+ rest) EmptyString lines.

(** A row of the table that [ollama list] prints: the name of the model,
    then the other columns. *)
Definition tableRow (row : string * string) : string :=
  row.1 +:+ " " +:+ row.2.

Definition wellFormedRow (row : string * string) : Prop :=
  wellFormedName row.1 /\ isASCII (tableRow row)
  /\ Strings.Contains (tableRow row) LF = false
  /\ Strings.Contains (tableRow row) "----" = false.
End TableDef.

(** ** A scripted listing

    No text here holds a multi-byte character, so the general functions
    are never reached; they return their argument. *)

Module ScriptedListing.

Definition unicode : Unicode :=
  {| TrimFunc_IsSpace := fun s => s;
     TrimRightFunc_IsSpace := fun s => s;
     FieldsFunc_IsSpace := fun s => [s] |}.

Definition header : string :=
  "NAME               ID              SIZE      MODIFIED     ".

Definition rows : list (string * string) :=
  [("qwen3:1.7b", "        8f68893c685c    1.4 GB    2 days ago     ");
   ("llama3.2:latest", "   a80c4f17acd5    2.0 GB    3 weeks ago    ")].

(** A listing with a rule under the header, an empty line, an indented row
    and a row that repeats the header word in another case. *)
Definition ruled : string :=
  "NAME  ID" +:+ LF +:+ "----  ----" +:+ LF +:+ LF
  +:+ "  qwen3:1.7b  8f68893c685c" +:+ LF +:+ "Name  x" +:+ LF.
End ScriptedListing.

(** ** The filesystem tool server

    The handlers of the server that offers the file system as tools, with
    [resolvePath] and [errorResult].  A handler returns its result with a
    nil error in every case; only the result is kept here. *)

Module fsserver.
Section Server.
Context `{Data}.

(** [os.FileInfo] as the handlers read it *)
Record FileInfo := {
  fi_Name : string;
  fi_IsDir : bool;
  fi_Size : Z;
  (** [info.Mode().String()] *)
  fi_Mode : string;
  (** [info.ModTime().Format("2006-01-02 15:04:05")] *)
  fi_ModTime : string;
}.

(** [os.DirEntry] *)
Record DirEntry := {
  de_Name : string;
  de_IsDir : bool;
}.

(** What [os.Stat] returns: the info, or an error with what
    [os.IsNotExist] says of it. *)
Inductive Stat :=
| StatOk (info : FileInfo)
| StatErr (err : error) (isNotExist : bool).

(** The operating system and [path/filepath]. *)
Class FileSystem := {
  os_UserHomeDir : World -> Result string;
  filepath_Join : string -> string -> string;
  filepath_Abs : string -> World -> Result string;
  filepath_Dir : string -> string;
  (** [filepath.Rel], the empty string when it fails *)
  filepath_Rel : string -> string -> string;
  (** [filepath.Match(pattern, name)] *)
  filepath_Match : string -> string -> Result bool;
  os_Stat : string -> World -> Stat * World;
  os_ReadFile : string -> World -> Result string * World;
  os_ReadDir : string -> World -> Result (list DirEntry) * World;
  os_MkdirAll : string -> nat -> World -> option error * World;
  os_WriteFile : string -> string -> nat -> World -> option error * World;
  (** the calls that [filepath.Walk] makes to a callback that never asks
      to skip: each path, with its info or the error met there *)
  filepath_Walk_visits : string -> World -> list (string * Result FileInfo) * World;
}.
Context `{FileSystem}.

(** The operations on the file system that a handler asks for. *)
Inductive Op :=
| OpStat (path : string)
| OpReadFile (path : string)
| OpReadDir (path : string)
| OpWalk (root : string)
| OpMkdirAll (path : string) (perm : nat)
| OpWriteFile (path : string) (content : string) (perm : nat).

Definition F (A : Type) : Type := World -> A * World * list Op.

Definition unit_ {A} (a : A) : F A := fun w => (a, w, []).

Definition bnd {A B} (m : F A) (k : A -> F B) : F B :=
  fun w =>
    let '(a, w1, t1) := m w in
    let '(b, w2, t2) := k a w1 in
    (b, w2, t1 ++ t2).

Definition Stat_ (path : string) : F Stat :=
  fun w => let '(r, w') := os_Stat path w in (r, w', [OpStat path]).

Definition ReadFile (path : string) : F (Result string) :=
  fun w => let '(r, w') := os_ReadFile path w in (r, w', [OpReadFile path]).

Definition ReadDir (path : string) : F (Result (list DirEntry)) :=
  fun w => let '(r, w') := os_ReadDir path w in (r, w', [OpReadDir path]).

Definition MkdirAll (path : string) (perm : nat) : F (option error) :=
  fun w => let '(r, w') := os_MkdirAll path perm w in (r, w', [OpMkdirAll path perm]).

Definition WriteFile (path content : string) (perm : nat) : F (option error) :=
  fun w =>
    let '(r, w') := os_WriteFile path content perm w in
    (r, w', [OpWriteFile path content perm]).

(** [filepath.Walk(root, fn)] for a callback that changes a state and
    returns an error or nil: the walk stops at the first error that the
    callback returns, and returns it. *)
Fixpoint walkLoop {S} (fn : S -> string -> Result FileInfo -> S * option error)
    (s : S) (visits : list (string * Result FileInfo)) : S * option error :=
  match visits with
  | [] => (s, None)
  | (path, r) :: rest =>
      let '(s', err) := fn s path r in
      match err with
      | Some e => (s', Some e)
      | None => walkLoop fn s' rest
      end
  end.

Definition Walk {S} (root : string)
    (fn : S -> string -> Result FileInfo -> S * option error) (s : S)
  : F (S * option error) :=
  fun w =>
    let '(visits, w') := filepath_Walk_visits root w in
    (walkLoop fn s visits, w', [OpWalk root]).

(** [*mcp.CallToolResult] with its one text content *)
Record CallToolResult := {
  IsError : bool;
  Text : string;
}.

Definition errorResult (message : string) : CallToolResult :=
  {| IsError := true; Text := message |}.

Definition textResult (text : string) : CallToolResult :=
  {| IsError := false; Text := text |}.

Definition resolvePath (path : string) : F (Result string) :=
  fun w =>
    let joined :=
      if Strings.HasPrefix path "~" then
        match os_UserHomeDir w with
        | Err err => Err err
        | Ok home => Ok (filepath_Join home (Strings.drop 1 path))
        end
      else Ok path in
    match joined with
    | Err err => (Err err, w, [])
    | Ok path => (filepath_Abs path w, w, [])
    end.
End Server.

Declare Scope fs_scope.
Delimit Scope fs_scope with fs.
Notation "'do' x <- m ; k" := (bnd m (fun x => k))
  (at level 10, x name, m at level 100, k at level 200) : fs_scope.
Open Scope fs_scope.

Section Handlers.
Context `{FileSystem}.

Definition handleReadFile (path : string) : F CallToolResult :=
  do resolved <- resolvePath path;
  match resolved with
  | Err err => unit_ (errorResult ("无法解析路径: " +:+ err))
  | Ok absPath =>
      do stat <- Stat_ absPath;
      match stat with
      | StatErr err true => unit_ (errorResult ("文件不存在: " +:+ absPath))
      | StatErr err false => unit_ (errorResult ("无法访问文件: " +:+ err))
      | StatOk info =>
          if fi_IsDir info
          then unit_ (errorResult (absPath +:+ " 是一个目录，不是文件"))
          else
            do content <- ReadFile absPath;
            match content with
            | Err err => unit_ (errorResult ("读取文件失败: " +:+ err))
            | Ok content => unit_ (textResult content)
            end
      end
  end.

(** The line of an entry of a listing. *)
Definition entryLine (isDir : bool) (name : string) : string :=
  (if isDir then "[DIR]  " else "[FILE] ") +:+ name +:+ LF.

(** The callback of the recursive listing. *)
Definition listVisit (absPath : string) (result : string) (path : string)
    (r : Result FileInfo) : string * option error :=
  match r with
  | Err _ => (result, None)
  | Ok info =>
      let relPath := filepath_Rel absPath path in
      if String.eqb relPath "." then (result, None)
      else (result +:+ entryLine (fi_IsDir info) relPath, None)
  end.

Definition handleListDirectory (path : string) (recursive : bool)
  : F CallToolResult :=
  do resolved <- resolvePath path;
  match resolved with
  | Err err => unit_ (errorResult ("无法解析路径: " +:+ err))
  | Ok absPath =>
      do stat <- Stat_ absPath;
      match stat with
      | StatErr err true => unit_ (errorResult ("目录不存在: " +:+ absPath))
      | StatErr err false => unit_ (errorResult ("无法访问目录: " +:+ err))
      | StatOk info =>
          if negb (fi_IsDir info)
          then unit_ (errorResult (absPath +:+ " 不是一个目录"))
          else
            let result := "目录: " +:+ absPath +:+ LF +:+ LF in
            if recursive then
              do walked <- Walk absPath (listVisit absPath) result;
              unit_ (textResult walked.1)
            else
              do entries <- ReadDir absPath;
              match entries with
              | Err err => unit_ (errorResult ("读取目录失败: " +:+ err))
              | Ok entries =>
                  unit_ (textResult
                           (foldl (fun result entry =>
                                     result +:+ entryLine (de_IsDir entry)
                                                  (de_Name entry))
                              result entries))
              end
      end
  end.

Definition handleGetFileInfo (path : string) : F CallToolResult :=
  do resolved <- resolvePath path;
  match resolved with
  | Err err => unit_ (errorResult ("无法解析路径: " +:+ err))
  | Ok absPath =>
      do stat <- Stat_ absPath;
      match stat with
      | StatErr err true => unit_ (errorResult ("路径不存在: " +:+ absPath))
      | StatErr err false => unit_ (errorResult ("无法获取文件信息: " +:+ err))
      | StatOk info =>
          let fileType := if fi_IsDir info then "目录" else "文件" in
          unit_ (textResult
                   ("文件信息:" +:+ LF
                    +:+ "路径: " +:+ absPath +:+ LF
                    +:+ "类型: " +:+ fileType +:+ LF
                    +:+ "大小: " +:+ pretty (fi_Size info) +:+ " 字节" +:+ LF
                    +:+ "权限: " +:+ fi_Mode info +:+ LF
                    +:+ "修改时间: " +:+ fi_ModTime info +:+ LF))
      end
  end.

(** The callback of the search. *)
Definition searchVisit (pattern : string) (matches : list string)
    (path : string) (r : Result FileInfo) : list string * option error :=
  match r with
  | Err _ => (matches, None)
  | Ok info =>
      if fi_IsDir info then (matches, None)
      else
        match filepath_Match pattern (fi_Name info) with
        | Err _ => (matches, None)
        | Ok matched =>
            if matched then (matches ++ [path], None) else (matches, None)
        end
  end.

Definition handleSearchFiles (path pattern : string) : F CallToolResult :=
  do resolved <- resolvePath path;
  match resolved with
  | Err err => unit_ (errorResult ("无法解析路径: " +:+ err))
  | Ok absPath =>
      do stat <- Stat_ absPath;
      match stat with
      | StatErr err true => unit_ (errorResult ("目录不存在: " +:+ absPath))
      | StatErr err false => unit_ (errorResult ("无法访问目录: " +:+ err))
      | StatOk info =>
          if negb (fi_IsDir info)
          then unit_ (errorResult (absPath +:+ " 不是一个目录"))
          else
            do walked <- Walk absPath (searchVisit pattern) [];
            match walked.2 with
            | Some err => unit_ (errorResult ("搜索失败: " +:+ err))
            | None =>
                let matches := walked.1 in
                let result := "搜索结果 (模式: " +:+ pattern +:+ "):" +:+ LF +:+ LF in
                unit_ (textResult
                         (if length matches =? 0
                          then result +:+ "未找到匹配的文件" +:+ LF
                          else
                            foldl (fun result match_ => result +:+ match_ +:+ LF)
                              result matches
                            +:+ LF +:+ "共找到 " +:+ pretty (length matches)
                            +:+ " 个文件" +:+ LF))
            end
      end
  end.

Definition handleWriteFile (path content : string) : F CallToolResult :=
  do resolved <- resolvePath path;
  match resolved with
  | Err err => unit_ (errorResult ("无法解析路径: " +:+ err))
  | Ok absPath =>
      let dir := filepath_Dir absPath in
      do made <- MkdirAll dir 493;
      match made with
      | Some err => unit_ (errorResult ("无法创建目录: " +:+ err))
      | None =>
          do written <- WriteFile absPath content 420;
          match written with
          | Some err => unit_ (errorResult ("写入文件失败: " +:+ err))
          | None => unit_ (textResult ("成功写入文件: " +:+ absPath))
          end
      end
  end.

Definition handleEditFile (path content : string) : F CallToolResult :=
  do resolved <- resolvePath path;
  match resolved with
  | Err err => unit_ (errorResult ("无法解析路径: " +:+ err))
  | Ok absPath =>
      do stat <- Stat_ absPath;
      match stat with
      | StatErr _ true => unit_ (errorResult ("文件不存在: " +:+ absPath))
      | _ =>
          do written <- WriteFile absPath content 420;
          match written with
          | Some err => unit_ (errorResult ("编辑文件失败: " +:+ err))
          | None => unit_ (textResult ("成功编辑文件: " +:+ absPath))
          end
      end
  end.

(** The names under which [registerTools] offers the handlers. *)
Definition registerTools : list string :=
  ["read_file"; "list_directory"; "write_file"; "edit_file";
   "get_file_info"; "search_files"].
End Handlers.
Close Scope fs_scope.
End fsserver.

Section ServerObservations.
Context `{fsserver.FileSystem}.
Import fsserver.

(** An operation that changes nothing in the file system. *)
Definition readOnly (op : Op) : Prop :=
  match op with
  | OpMkdirAll _ _ | OpWriteFile _ _ _ => False
  | _ => True
  end.

(** An operation on a path, or for a write on the directory above it. *)
Definition onPath (absPath : string) (op : Op) : Prop :=
  match op with
  | OpStat path | OpReadFile path | OpReadDir path | OpWalk path
  | OpWriteFile path _ _ => path = absPath
  | OpMkdirAll path _ => path = filepath_Dir absPath
  end.
End ServerObservations.

(** ** A scripted file system

    The directory [/work] holds the file [a.txt]; relative paths are taken
    from there; nothing else exists, and every write succeeds. *)

Module ScriptedFiles.
Import Scripted fsserver.
#[local] Existing Instance data.

Definition aFile : FileInfo :=
  {| fi_Name := "a.txt"; fi_IsDir := false; fi_Size := 5;
     fi_Mode := "-rw-r--r--"; fi_ModTime := "2025-01-01 00:00:00" |}.

Definition workDir : FileInfo :=
  {| fi_Name := "work"; fi_IsDir := true; fi_Size := 4096;
     fi_Mode := "drwxr-xr-x"; fi_ModTime := "2025-01-01 00:00:00" |}.

Definition stat (path : string) (w : ScriptWorld) : Stat * ScriptWorld :=
  if String.eqb path "/work/a.txt" then (StatOk aFile, w)
  else if String.eqb path "/work" then (StatOk workDir, w)
  else (StatErr ("stat " +:+ path +:+ ": no such file or directory") true, w).

Definition fileSystem : FileSystem :=
  {| os_UserHomeDir := fun _ => Ok "/home/user";
     filepath_Join := fun a b => a +:+ "/" +:+ b;
     filepath_Abs := fun path _ =>
       Ok (if Strings.HasPrefix path "/" then path else "/work/" +:+ path);
     filepath_Dir := fun path =>
       if String.eqb path "/work/a.txt" then "/work" else "/work/new";
     filepath_Rel := fun base path => Strings.drop (String.length base + 1) path;
     filepath_Match := fun pattern name =>
       if String.eqb pattern "[" then Err "syntax error in pattern"
       else Ok (String.eqb pattern "*" || String.eqb pattern name);
     os_Stat := stat;
     os_ReadFile := fun path w =>
       if String.eqb path "/work/a.txt" then (Ok "hello", w)
       else (Err ("open " +:+ path +:+ ": no such file or directory"), w);
     os_ReadDir := fun path w =>
       if String.eqb path "/work"
       then (Ok [{| de_Name := "a.txt"; de_IsDir := false |}], w)
       else (Err ("open " +:+ path +:+ ": no such file or directory"), w);
     os_MkdirAll := fun _ _ w => (None, w);
     os_WriteFile := fun _ _ _ w => (None, w);
     filepath_Walk_visits := fun root w =>
       ([(root, Ok workDir); (root +:+ "/a.txt", Ok aFile)], w) |}.

Definition disk : ScriptWorld := script [] [].
End ScriptedFiles.

(** * Properties *)

(** ** Splitting on a separator *)

Section StringFacts.
Import Strings.

Lemma append_nil (s : string) : EmptyString +:+ s = s.
Proof. reflexivity. Qed.

Lemma append_cons c (a b : string) : String c a +:+ b = String c (a +:+ b).
Proof. reflexivity. Qed.

Lemma append_empty (s : string) : s +:+ EmptyString = s.
Proof. induction s as [|c s IH]; [done|]. by rewrite append_cons, IH. Qed.

Lemma append_assoc (a b c : string) : (a +:+ b) +:+ c = a +:+ b +:+ c.
Proof. induction a as [|x a IH]; [done|]. by rewrite !append_cons, IH. Qed.

Lemma length_drop n s : String.length (drop n s) = String.length s - n.
Proof.
  revert s; induction n as [|n IH]; intros [|c s]; simpl; auto.
Qed.

Lemma take_app_length p s : take (String.length p) (p +:+ s) = p.
Proof. induction p as [|c p IH]; simpl; [by destruct s | by rewrite IH]. Qed.

Lemma drop_app_length p s : drop (String.length p) (p +:+ s) = s.
Proof. induction p as [|c p IH]; simpl; auto. Qed.

Lemma drop_add n k s : drop (n + k) s = drop k (drop n s).
Proof.
  revert s; induction n as [|n IH]; intros s; simpl; auto.
  destruct s as [|c s]; simpl; auto. by destruct k.
Qed.

Lemma take_drop n s : take n s +:+ drop n s = s.
Proof.
  revert s; induction n as [|n IH]; intros [|c s]; simpl; auto.
  rewrite append_cons. f_equal. apply IH.
Qed.

Lemma prefix_length a s : String.prefix a s = true -> String.length a <= String.length s.
Proof.
  revert a; induction s as [|c s IH]; intros [|d a]; simpl; try lia; try discriminate.
  destruct (Ascii.ascii_dec d c); [|discriminate]. intros Hp. apply IH in Hp. lia.
Qed.

Lemma prefix_app a s : String.prefix a (a +:+ s) = true.
Proof.
  induction a as [|c a IH]; simpl; [by destruct s|].
  destruct (Ascii.ascii_dec c c); [done | congruence].
Qed.

Lemma prefix_split a s : String.prefix a s = true -> exists r, s = a +:+ r.
Proof.
  revert a; induction s as [|c s IH]; intros [|d a]; simpl; try discriminate.
  - by exists EmptyString.
  - by exists (String c s).
  - destruct (Ascii.ascii_dec d c) as [->|]; [|discriminate].
    intros [r ->]%IH. by exists r.
Qed.

Lemma Index_eq s sep :
  Index s sep =
    if String.prefix sep s then Some 0
    else match s with
         | EmptyString => None
         | String _ s' => S <$> Index s' sep
         end.
Proof. by destruct s. Qed.

Lemma Index_bound s sep m :
  Index s sep = Some m -> m + String.length sep <= String.length s.
Proof.
  revert m; induction s as [|c s IH]; intros m; rewrite Index_eq.
  - destruct (String.prefix sep "") eqn:Hp; [|discriminate].
    intros [= <-]. by apply prefix_length in Hp.
  - destruct (String.prefix sep (String c s)) eqn:Hp.
    + intros [= <-]. by apply prefix_length in Hp.
    + destruct (Index s sep) as [k|] eqn:Hi; [|discriminate].
      intros [= <-]. specialize (IH k eq_refl). simpl. lia.
Qed.

Lemma Index_split s sep m :
  Index s sep = Some m ->
  exists r, s = take m s +:+ sep +:+ r /\ drop (m + String.length sep) s = r.
Proof.
  revert m; induction s as [|c s IH]; intros m; rewrite Index_eq.
  - destruct sep as [|d sep]; [|discriminate].
    intros [= <-]. by exists EmptyString.
  - destruct (String.prefix sep (String c s)) eqn:Hp.
    + intros [= <-]. apply prefix_split in Hp as [r Hr]. exists r. split; [done|].
      cbn [Nat.add]. rewrite Hr. by rewrite drop_app_length.
    + destruct (Index s sep) as [k|] eqn:Hi; [|discriminate].
      intros [= <-]. destruct (IH k eq_refl) as (r & Hs & Hd).
      exists r. simpl. rewrite append_cons. split; [by rewrite <- Hs | done].
Qed.

Lemma Index_None_app a sep b : Index (a +:+ sep +:+ b) sep <> None.
Proof.
  induction a as [|c a IH]; rewrite Index_eq.
  - by rewrite append_nil, prefix_app.
  - destruct (String.prefix sep _); [done|]. rewrite append_cons.
    by destruct (Index (a +:+ sep +:+ b) sep).
Qed.

(** [Contains] is the existence of an occurrence. *)
Lemma Contains_spec s sep :
  Contains s sep = true <-> exists a b, s = a +:+ sep +:+ b.
Proof.
  unfold Contains. split.
  - destruct (Index s sep) as [m|] eqn:Hi; [|discriminate].
    intros _. apply Index_split in Hi as (r & Hs & _). eauto.
  - intros (a & b & ->). pose proof (Index_None_app a sep b).
    by destruct (Index _ sep).
Qed.

Lemma split_loop_fuel sep : sep <> EmptyString -> forall f1 f2 s,
  String.length s < f1 -> String.length s < f2 ->
  split_loop f1 s sep = split_loop f2 s sep.
Proof.
  intros Hsep. induction f1 as [|f1 IH]; intros f2 s H1 H2; [lia|].
  destruct f2 as [|f2]; [lia|]. simpl.
  destruct (Index s sep) as [m|] eqn:Hi; [|done].
  f_equal. apply Index_bound in Hi.
  assert (0 < String.length sep) by (destruct sep; [done | simpl; lia]).
  apply IH; rewrite length_drop; lia.
Qed.

Lemma count_loop_fuel sep : sep <> EmptyString -> forall f1 f2 s,
  String.length s < f1 -> String.length s < f2 ->
  count_loop f1 s sep = count_loop f2 s sep.
Proof.
  intros Hsep. induction f1 as [|f1 IH]; intros f2 s H1 H2; [lia|].
  destruct f2 as [|f2]; [lia|]. simpl.
  destruct (Index s sep) as [m|] eqn:Hi; [|done].
  f_equal. apply Index_bound in Hi.
  assert (0 < String.length sep) by (destruct sep; [done | simpl; lia]).
  apply IH; rewrite length_drop; lia.
Qed.

(** The loops as Go runs them: up to the first failing [Index]. *)
Lemma Split_unfold s sep : sep <> EmptyString ->
  Split s sep =
    match Index s sep with
    | None => [s]
    | Some m => take m s :: Split (drop (m + String.length sep) s) sep
    end.
Proof.
  intros Hsep. unfold Split at 1. simpl.
  destruct (Index s sep) as [m|] eqn:Hi; [|done].
  f_equal. apply Index_bound in Hi.
  assert (0 < String.length sep) by (destruct sep; [done | simpl; lia]).
  apply split_loop_fuel; [done | rewrite length_drop; lia | lia].
Qed.

Lemma Count_unfold s sep : sep <> EmptyString ->
  Count s sep =
    match Index s sep with
    | None => 0
    | Some i => S (Count (drop (i + String.length sep) s) sep)
    end.
Proof.
  intros Hsep. unfold Count at 1. simpl.
  destruct (Index s sep) as [m|] eqn:Hi; [|done].
  f_equal. apply Index_bound in Hi.
  assert (0 < String.length sep) by (destruct sep; [done | simpl; lia]).
  apply count_loop_fuel; [done | rewrite length_drop; lia | lia].
Qed.

Lemma split_loop_length f s sep :
  length (split_loop f s sep) = S (count_loop f s sep).
Proof.
  revert s; induction f as [|f IH]; intros s; simpl; [done|].
  destruct (Index s sep); simpl; [by rewrite IH | done].
Qed.

Lemma Split_length s sep : length (Split s sep) = S (Count s sep).
Proof. apply split_loop_length. Qed.

Lemma Count_zero s sep : sep <> EmptyString ->
  Count s sep = 0 <-> Contains s sep = false.
Proof.
  intros Hsep. rewrite Count_unfold by done. unfold Contains.
  destruct (Index s sep); split; done.
Qed.
Lemma length_take n s :
  n <= String.length s -> String.length (take n s) = n.
Proof.
  revert s; induction n as [|n IH]; intros [|c s] Hn; simpl in *; try lia.
  rewrite IH; lia.
Qed.

Lemma length_append (a b : string) :
  String.length (a +:+ b) = String.length a + String.length b.
Proof. induction a as [|c a IH]; [done|]. rewrite append_cons. simpl. by rewrite IH. Qed.

Lemma HasPrefix_take n s : HasPrefix s (take n s) = true.
Proof.
  unfold HasPrefix. rewrite <- (take_drop n s) at 2. apply prefix_app.
Qed.

(** One occurrence, as [Count] sees it: the leftmost separator, and none in
    what follows it. *)
Lemma Count_one s sep : sep <> EmptyString ->
  Count s sep = 1 <->
  exists p t, s = p +:+ sep +:+ t
              /\ Index s sep = Some (String.length p)
              /\ Contains t sep = false.
Proof.
  intros Hsep. rewrite Count_unfold by done. split.
  - destruct (Index s sep) as [i|] eqn:Hi; [|done]. intros [= Hc].
    apply Count_zero in Hc; [|done].
    pose proof (Index_bound _ _ _ Hi) as Hb.
    apply Index_split in Hi as (r & Hs & Hd).
    exists (take i s), r. rewrite length_take by lia.
    split_and!; [done | done | by rewrite <- Hd].
  - intros (p & t & -> & -> & Ht).
    rewrite drop_add, !drop_app_length. f_equal. by apply Count_zero.
Qed.
End StringFacts.

(** ** Qualified tool names *)

Section ToolNames.
Import Strings.

Lemma HasSuffix_underscore_cons c c' s :
  HasSuffix (String c (String c' s)) "_" = HasSuffix (String c' s) "_".
Proof.
  unfold HasSuffix. simpl. by rewrite Nat.sub_0_r.
Qed.

Lemma prefix_nil s : String.prefix EmptyString s = true.
Proof. by destruct s. Qed.

Lemma prefix_cons d a c s :
  String.prefix (String d a) (String c s)
  = if Ascii.ascii_dec d c then String.prefix a s else false.
Proof. reflexivity. Qed.

Lemma Index_cons_None c s sep :
  Index (String c s) sep = None ->
  String.prefix sep (String c s) = false /\ Index s sep = None.
Proof.
  rewrite Index_eq. destruct (String.prefix sep (String c s)); [done|].
  by destruct (Index s sep).
Qed.

(** In [p + "__" + t] the first separator is the one that was inserted,
    as long as [p] has none and does not end in an underscore. *)
Lemma Index_qualifiedName p t :
  Contains p separator = false ->
  HasSuffix p "_" = false ->
  Index (qualifiedName p t) separator = Some (String.length p).
Proof.
  unfold qualifiedName, Contains.
  induction p as [|c p IH]; intros Hc Hs.
  - by rewrite Index_eq, append_nil, prefix_app.
  - destruct (Index (String c p) separator) eqn:Hi; [done|].
    apply Index_cons_None in Hi as [Hp Hi].
    rewrite Index_eq, append_cons.
    assert (String.prefix separator (String c (p +:+ separator +:+ t)) = false) as ->.
    { unfold separator in *. rewrite prefix_cons in Hp |- *.
      destruct (Ascii.ascii_dec "_" c) as [<-|]; [|done].
      destruct p as [|c' p]; [done|].
      rewrite append_cons. rewrite prefix_cons in Hp |- *.
      destruct (Ascii.ascii_dec "_" c') as [<-|]; [|done].
      by rewrite prefix_nil in Hp. }
    rewrite IH; [done | by rewrite Hi |].
    destruct p as [|c' p]; [done|]. by rewrite <- HasSuffix_underscore_cons with (c := c).
Qed.

Lemma separator_nonempty : separator <> EmptyString.
Proof. discriminate. Qed.

Lemma Split_without sep t :
  sep <> EmptyString -> Contains t sep = false -> Split t sep = [t].
Proof.
  intros Hsep Ht. rewrite Split_unfold by done.
  unfold Contains in Ht. by destruct (Index t sep).
Qed.

Lemma Split_qualifiedName p t :
  Contains p separator = false ->
  HasSuffix p "_" = false ->
  Contains t separator = false ->
  Split (qualifiedName p t) separator = [p; t].
Proof.
  intros Hp Hs Ht.
  rewrite Split_unfold by apply separator_nonempty.
  rewrite Index_qualifiedName by done.
  unfold qualifiedName.
  rewrite take_app_length, drop_add, !drop_app_length.
  by rewrite Split_without by (done || apply separator_nonempty).
Qed.

Lemma parseToolName_qualifiedName p t :
  Contains p separator = false ->
  HasSuffix p "_" = false ->
  Contains t separator = false ->
  parseToolName (qualifiedName p t) = Ok (p, t).
Proof.
  intros Hp Hs Ht. unfold parseToolName.
  by rewrite Split_qualifiedName.
Qed.

Lemma parseToolName_Err name e :
  parseToolName name = Err e ->
  e = "invalid tool name format: " +:+ name /\ Count name separator <> 1.
Proof.
  unfold parseToolName. rewrite Split_length.
  destruct (S (Count name separator) =? 2) eqn:E; [done|].
  apply Nat.eqb_neq in E. intros [= <-]. split; [done | lia].
Qed.

Lemma parseToolName_Ok name p t :
  parseToolName name = Ok (p, t) ->
  Count name separator = 1 /\ Split name separator = [p; t].
Proof.
  unfold parseToolName. pose proof (Split_length name separator) as Hl.
  destruct (length (Split name separator) =? 2) eqn:E; [|done].
  apply Nat.eqb_eq in E. intros [= <- <-]. split; [lia|].
  destruct (Split name separator) as [|a [|b [|]]]; done.
Qed.
(** The names that [parseToolName] accepts, and what it returns for them. *)
Lemma parseToolName_Ok_iff name p t :
  parseToolName name = Ok (p, t) <->
  name = qualifiedName p t
  /\ Index name separator = Some (String.length p)
  /\ Contains t separator = false.
Proof.
  split.
  - intros [_ Hsplit]%parseToolName_Ok.
    rewrite Split_unfold in Hsplit by apply separator_nonempty.
    destruct (Index name separator) as [m|] eqn:Hi; [|done].
    pose proof (Index_bound _ _ _ Hi) as Hb.
    apply Index_split in Hi as (r & Hs & Hd). rewrite Hd in Hsplit.
    rewrite Split_unfold in Hsplit by apply separator_nonempty.
    unfold Contains. destruct (Index r separator) as [k|] eqn:Hr.
    + injection Hsplit as _ _ Hrest. unfold Split in Hrest. by simpl in Hrest;
        destruct (Index (drop _ r) separator).
    + injection Hsplit as <- <-. rewrite length_take by lia.
      by rewrite Hr.
  - intros (-> & Hi & Ht). unfold parseToolName.
    rewrite Split_unfold, Hi by apply separator_nonempty.
    unfold qualifiedName.
    rewrite take_app_length, drop_add, !drop_app_length.
    by rewrite Split_without by (done || apply separator_nonempty).
Qed.
End ToolNames.

(** ** Occurrences of the separator *)

Section Occurrences.
Import Strings.

Lemma occursAt_0 s sep : occursAt s sep 0 = String.prefix sep s.
Proof. reflexivity. Qed.

Lemma occursAt_S c s sep i : occursAt (String c s) sep (S i) = occursAt s sep i.
Proof. reflexivity. Qed.

Lemma occursAt_drop s sep n k :
  occursAt (drop n s) sep k = occursAt s sep (n + k).
Proof. unfold occursAt. by rewrite drop_add. Qed.

(** An occurrence at offset [i] is a way of writing the string as [i]
    bytes, the separator, and a rest. *)
Lemma occursAt_spec s sep i :
  i <= String.length s /\ occursAt s sep i = true
  <-> exists a b, s = a +:+ sep +:+ b /\ String.length a = i.
Proof.
  unfold occursAt, HasPrefix. split.
  - intros [Hi [r Hr]%prefix_split]. exists (take i s), r.
    split; [by rewrite <- Hr, take_drop | by apply length_take].
  - intros (a & b & -> & <-). rewrite drop_app_length, prefix_app.
    split; [rewrite length_append; lia | done].
Qed.

Lemma elem_of_occurrences s sep i :
  i ∈ occurrences s sep <-> i <= String.length s /\ occursAt s sep i = true.
Proof.
  unfold occurrences. rewrite list_elem_of_In, filter_In, in_seq.
  split; (intros [? ?]; split; [lia | done]).
Qed.

Lemma Index_occursAt s sep i : Index s sep = Some i -> occursAt s sep i = true.
Proof.
  revert i; induction s as [|c s IH]; intros i; rewrite Index_eq.
  - destruct (String.prefix sep "") eqn:Hp; [|done]. by intros [= <-].
  - destruct (String.prefix sep (String c s)) eqn:Hp; [by intros [= <-]|].
    destruct (Index s sep) as [k|]; [|done]. intros [= <-].
    rewrite occursAt_S. by apply IH.
Qed.

Lemma Index_leftmost s sep i j :
  Index s sep = Some i -> occursAt s sep j = true -> i <= j.
Proof.
  revert i j; induction s as [|c s IH]; intros i j; rewrite Index_eq.
  - destruct (String.prefix sep "") eqn:Hp; [|done]. intros [= <-]. lia.
  - destruct (String.prefix sep (String c s)) eqn:Hp; [intros [= <-]; lia|].
    destruct (Index s sep) as [k|] eqn:Hk; [|done]. intros [= <-].
    destruct j as [|j]; [by rewrite occursAt_0, Hp|].
    rewrite occursAt_S. intros Hj. specialize (IH k j eq_refl Hj). lia.
Qed.

Lemma Index_None_occursAt s sep j : Index s sep = None -> occursAt s sep j = false.
Proof.
  revert j; induction s as [|c s IH]; intros j; rewrite Index_eq.
  - destruct (String.prefix sep "") eqn:Hp; [done|]. intros _.
    destruct j; [by rewrite occursAt_0 | done].
  - destruct (String.prefix sep (String c s)) eqn:Hp; [done|].
    destruct (Index s sep) as [k|] eqn:Hk; [done|]. intros _.
    destruct j as [|j]; [by rewrite occursAt_0|].
    rewrite occursAt_S. by apply IH.
Qed.

Lemma head_filter_seq (f : nat -> bool) n : forall k i,
  k <= i < k + n -> f i = true -> (forall j, k <= j < i -> f j = false) ->
  head (List.filter f (seq k n)) = Some i.
Proof.
  induction n as [|n IH]; intros k i Hi Hf Hless; [lia|].
  cbn [seq List.filter]. destruct (decide (k = i)) as [->|Hne].
  - by rewrite Hf.
  - rewrite Hless by lia. apply IH; [lia | done | intros j Hj; apply Hless; lia].
Qed.

(** [strings.Index] returns the leftmost occurrence. *)
Lemma Index_head_occurrences s sep :
  Index s sep = head (occurrences s sep).
Proof.
  destruct (Index s sep) as [i|] eqn:Hi.
  - symmetry. apply head_filter_seq.
    + apply Index_bound in Hi. lia.
    + by apply Index_occursAt.
    + intros j Hj. destruct (occursAt s sep j) eqn:Ho; [|done].
      pose proof (Index_leftmost _ _ _ _ Hi Ho). lia.
  - destruct (occurrences s sep) as [|j l] eqn:Ho; [done|].
    assert (j ∈ occurrences s sep) as [_ Hj]%elem_of_occurrences
      by (rewrite Ho; left).
    by rewrite Index_None_occursAt in Hj.
Qed.

Lemma Index_None_occurrences s sep :
  Index s sep = None <-> occurrences s sep = [].
Proof.
  rewrite Index_head_occurrences. by destruct (occurrences s sep).
Qed.

(** [strings.Count] finds a second occurrence exactly when two occurrences
    do not overlap. *)
Lemma Count_two s sep : sep <> EmptyString ->
  1 < Count s sep <->
  exists i j, i ∈ occurrences s sep /\ j ∈ occurrences s sep
              /\ i + String.length sep <= j.
Proof.
  intros Hsep. rewrite Count_unfold by done. split.
  - destruct (Index s sep) as [i|] eqn:Hi; [|lia]. intros Hc.
    rewrite Count_unfold in Hc by done.
    destruct (Index (drop _ s) sep) as [k|] eqn:Hk; [|lia].
    exists i, (i + String.length sep + k).
    pose proof (Index_bound _ _ _ Hi). pose proof (Index_bound _ _ _ Hk) as Hb.
    rewrite length_drop in Hb.
    apply Index_occursAt in Hi, Hk. rewrite occursAt_drop in Hk.
    rewrite !elem_of_occurrences. split_and!; try done; lia.
  - intros (i & j & [_ Hi]%elem_of_occurrences & [_ Hj]%elem_of_occurrences & Hij).
    destruct (Index s sep) as [m|] eqn:Hm;
      [|by rewrite Index_None_occursAt in Hi].
    pose proof (Index_leftmost _ _ _ _ Hm Hi) as Hle.
    rewrite Count_unfold by done.
    destruct (Index (drop _ s) sep) as [k|] eqn:Hk; [lia|].
    apply Index_None_occursAt with (j := j - (m + String.length sep)) in Hk.
    rewrite occursAt_drop in Hk.
    replace (m + String.length sep + (j - (m + String.length sep))) with j in Hk by lia.
    congruence.
Qed.

Lemma isErr_parseToolName name :
  isErr (parseToolName name) = true <-> Count name separator <> 1.
Proof.
  destruct (parseToolName name) as [[p t]|e] eqn:Hparse; simpl.
  - apply parseToolName_Ok in Hparse as [-> _]. split; [done | lia].
  - by apply parseToolName_Err in Hparse as [_ Hc].
Qed.
End Occurrences.

(** ** The claims on tool names *)

Section ToolNameClaims.
Import Strings.

(** C1, amended: when the provider name is non-empty, has no separator and
    does not end in an underscore, and the tool name is non-empty and has
    no separator, parsing the qualified name gives both names back. *)
Theorem parseToolName_roundtrip (p t : string) :
  p <> EmptyString -> Contains p separator = false ->
  HasSuffix p "_" = false ->
  t <> EmptyString -> Contains t separator = false ->
  parseToolName (qualifiedName p t) = Ok (p, t).
Proof. intros _ Hp Hs _ Ht. by apply parseToolName_qualifiedName. Qed.

Lemma parseToolName_roundtrip_witness :
  parseToolName (qualifiedName "fs" "read_file") = Ok ("fs", "read_file").
Proof. by apply parseToolName_roundtrip. Defined.

(** C1 as stated fails: the provider name ["a_"] and the tool name ["b"]
    are non-empty and free of the separator, yet ["a___b"] parses to
    provider ["a"] and tool ["_b"]. *)
Lemma roundtrip_breaks_after_underscore :
  "a_" <> EmptyString /\ Contains "a_" separator = false
  /\ "b" <> EmptyString /\ Contains "b" separator = false
  /\ parseToolName (qualifiedName "a_" "b") = Ok ("a", "_b")
  /\ parseToolName (qualifiedName "a_" "b") <> Ok ("a_", "b").
Proof. by split_and!. Qed.

(** C2, amended: [parseToolName] returns the naming error exactly for the
    names that hold no occurrence of the separator or two occurrences that
    do not overlap (their offsets are at least the separator's length
    apart); the error text is "invalid tool name format: " followed by the
    name.  A name it accepts is cut at its leftmost occurrence.  So "tool"
    and "server__tool__extra" are rejected and "server__tool" is accepted
    as ("server", "tool"). *)
Theorem parseToolName_rejection :
  (forall name,
      (isErr (parseToolName name) = true
       <-> occurrences name separator = []
           \/ exists i j, i ∈ occurrences name separator
                          /\ j ∈ occurrences name separator
                          /\ i + String.length separator <= j)
      /\ (forall e, parseToolName name = Err e ->
                    e = "invalid tool name format: " +:+ name)
      /\ (forall p t, parseToolName name = Ok (p, t) ->
                      name = qualifiedName p t
                      /\ head (occurrences name separator)
                         = Some (String.length p)))
  /\ parseToolName "tool" = Err "invalid tool name format: tool"
  /\ parseToolName "server__tool__extra"
     = Err "invalid tool name format: server__tool__extra"
  /\ parseToolName "server__tool" = Ok ("server", "tool").
Proof.
  split_and!; try done.
  intros name. split_and!.
  - rewrite isErr_parseToolName, <- Index_None_occurrences,
      <- Count_two by apply separator_nonempty.
    pose proof (Count_zero name separator separator_nonempty) as Hz.
    unfold Contains in Hz.
    destruct (Index name separator) as [i|].
    + split; [intros Hc | intros [?|?]; [done | lia]].
      right. destruct (Count name separator) as [|[|n]]; [|done|lia].
      by destruct Hz as [Hz _]; specialize (Hz eq_refl).
    + split; [by left | intros _]. destruct Hz as [_ Hz]. by rewrite Hz.
  - intros e He. by apply parseToolName_Err in He as [-> _].
  - intros p t (-> & Hi & _)%parseToolName_Ok_iff.
    by rewrite <- Index_head_occurrences.
Qed.

(** C2 as stated fails: ["a___b"] holds two occurrences of the separator,
    at offsets 1 and 2, and yet it is accepted, as provider ["a"] and tool
    ["_b"]. *)
Lemma overlapping_separators_accepted :
  occurrences "a___b" separator = [1; 2]
  /\ 1 < length (occurrences "a___b" separator)
  /\ parseToolName "a___b" = Ok ("a", "_b")
  /\ isErr (parseToolName "a___b") = false.
Proof. split_and!; [done | simpl; lia | done | done]. Qed.
End ToolNameClaims.


(** ** The registry *)

Section Registry.
Context `{Externals}.
Import mcp.

Lemma bind_eq {A B} (m : M A) (k : A -> M B) w a w1 t1 :
  m w = (a, w1, t1) ->
  bind m k w = (let '(b, w2, t2) := k a w1 in (b, w2, t1 ++ t2)).
Proof. unfold bind. by intros ->. Qed.

Lemma transportOf_trace server w :
  exists t, transportOf server w = (t, w, []).
Proof.
  unfold transportOf. destruct (String.eqb _ _); [by eexists|].
  by eexists.
Qed.

Lemma connectToServer_spec c name server w :
  exists r w',
    connectToServer c name server w
    = ((connected c name r,
        match r with
        | Ok _ => None
        | Err e => Some ("failed to connect to server: " +:+ e)
        end), w', [EvConnect name r]).
Proof.
  unfold connectToServer.
  destruct (transportOf_trace server w) as [t Ht].
  rewrite (bind_eq _ _ _ _ _ _ Ht). unfold bind, Connect.
  destruct (client_Connect t w) as [r w'] eqn:Hc.
  exists r, w'. by destruct r.
Qed.


(** The three ways out of the router. *)
Lemma CallTool_naming_error c name args w e :
  parseToolName name = Err e -> CallTool c name args w = (Err e, w, []).
Proof. unfold CallTool. by intros ->. Qed.

Lemma CallTool_unknown_provider c name args w serverName toolName :
  parseToolName name = Ok (serverName, toolName) ->
  sessions c !! serverName = None ->
  CallTool c name args w
  = (Err ("server " +:+ serverName +:+ " not found"), w, []).
Proof. unfold CallTool. by intros -> ->. Qed.

Lemma CallTool_forward c name args w serverName toolName session :
  parseToolName name = Ok (serverName, toolName) ->
  sessions c !! serverName = Some session ->
  CallTool c name args w
  = (forwarded (session_CallTool session toolName args w).1,
     (session_CallTool session toolName args w).2,
     [EvCallTool session toolName args]).
Proof.
  unfold CallTool. intros -> ->. unfold bind, SessionCallTool.
  by destruct (session_CallTool _ _ _ _) as [[v|e] w'].
Qed.

(** The catalog holds nothing but qualified names of tools that the live
    sessions listed, and the router sends such a name back to the session
    it was listed by. *)
Lemma getToolsFrom_catalogued entries : forall allTools w tool,
  tool ∈ (getToolsFrom allTools entries w).1.1 ->
  tool ∈ allTools \/ catalogued entries tool.
Proof.
  induction entries as [|[serverName session] rest IH]; intros allTools w tool;
    [by left|].
  assert (Hweak : catalogued rest tool ->
                  catalogued ((serverName, session) :: rest) tool).
  { intros (p & s & t & Hin & ->). exists p, s, t. split; [by right | done]. }
  simpl. unfold bind, ListTools.
  destruct (session_ListTools session w) as [[tools|e] w1].
  - specialize (IH (allTools ++ (openaiTool serverName <$> tools)) w1 tool).
    destruct (getToolsFrom _ rest w1) as [[all' w2] t2]. simpl in *.
    intros [[Hin|Hin]%elem_of_app|Hin]%IH; [by left | | by right; apply Hweak].
    right. apply list_elem_of_fmap in Hin as (t & -> & _).
    exists serverName, session, t. split; [by left | done].
  - unfold eprint, emit. specialize (IH allTools w1 tool).
    destruct (getToolsFrom allTools rest w1) as [[all' w2] t2]. simpl in *.
    intros [Hin|Hin]%IH; [by left | by right; apply Hweak].
Qed.

Lemma GetTools_catalogued c w tools w' tr tool :
  GetTools c w = (Ok tools, w', tr) ->
  tool ∈ tools ->
  exists serverName session t,
    sessions c !! serverName = Some session
    /\ api.tf_Name (api.tool_Function tool) = qualifiedName serverName (sdk.Name t).
Proof.
  unfold GetTools, bind, ret. intros Hget Hin.
  pose proof (getToolsFrom_catalogued (map_to_list (sessions c)) [] w tool) as Hc.
  destruct (getToolsFrom [] _ w) as [[all' w1] t1]. simpl in *.
  injection Hget as <- _ _.
  destruct (Hc Hin) as [Hnil|(p & s & t & Hentry & ->)];
    [by apply elem_of_nil in Hnil|].
  exists p, s, t. split; [by apply elem_of_map_to_list | done].
Qed.

End Registry.

Section RegistryClaims.
Context `{Externals}.
Import mcp.




(** C10: ["__"] parses to an empty provider name and an empty tool name,
    so [CallTool] on it looks the empty name up and, with no provider of
    that name, answers that the server was not found; the empty string is
    rejected as a naming error. *)
Theorem CallTool_empty_sides (c : Client) (args : ToolArgs) (w : World) :
  sessions c !! EmptyString = None ->
  parseToolName "__" = Ok (EmptyString, EmptyString)
  /\ CallTool c "__" args w = (Err "server  not found", w, [])
  /\ parseToolName "" = Err "invalid tool name format: "
  /\ CallTool c "" args w = (Err "invalid tool name format: ", w, []).
Proof.
  intros Hc. split_and!; [done| |done|done].
  by apply (CallTool_unknown_provider c "__" args w "" "").
Qed.
End RegistryClaims.

(** ** The orchestrator *)

Section Orchestrator.
Context `{Externals}.
Import agent.

Lemma foldM_app {A B} (f : A -> B -> M A) l1 l2 : forall a w,
  foldM f a (l1 ++ l2) w
  = (let '(a1, w1, t1) := foldM f a l1 w in
     let '(a2, w2, t2) := foldM f a1 l2 w1 in
     (a2, w2, t1 ++ t2)).
Proof.
  induction l1 as [|b l1 IH]; intros a w; simpl.
  - unfold ret. by destruct (foldM f a l2 w) as [[a2 w2] t2].
  - unfold bind. destruct (f a b w) as [[a' w'] t'].
    rewrite IH. destruct (foldM f a' l1 w') as [[a1 w1] t1].
    destruct (foldM f a1 l2 w1) as [[a2 w2] t2]. by rewrite app_assoc.
Qed.

Lemma foldM_singleton {A B} (f : A -> B -> M A) a b w :
  foldM f a [b] w = (let '(a', w', t) := f a b w in (a', w', t ++ [])).
Proof. simpl. unfold bind, ret. by destruct (f a b w) as [[a' w'] t]. Qed.

(** One tool call: the router is asked, its outcome is shown, and a tool
    message carrying the whole text is appended, error or not. *)
Lemma callOne_spec a conversation toolCall w :
  callOne a conversation toolCall w
  = (let '(r, w', t) :=
       mcp.CallTool (mcpClient a) (api.Name (api.Function toolCall))
         (api.Arguments (api.Function toolCall)) w in
     (conversation ++ [toolMessage (api.Name (api.Function toolCall)) (storedText r)],
      w', Stdout (callLine toolCall) :: t ++ [Stdout (shownLine r)])).
Proof.
  unfold callOne, bind, print, emit, ret. simpl.
  destruct (mcp.CallTool _ _ _ w) as [[[v|e] w'] t]; simpl;
    by rewrite ?app_nil_r.
Qed.

Lemma foldM_callOne a calls : forall conversation w,
  exists results w' tr,
    foldM (callOne a) conversation calls w = (conversation ++ results, w', tr)
    /\ Forall2 answers calls results.
Proof.
  induction calls as [|toolCall calls IH]; intros conversation w; simpl.
  - exists [], w, []. by rewrite app_nil_r.
  - unfold bind. rewrite callOne_spec.
    destruct (mcp.CallTool _ _ _ w) as [[r w1] t1].
    destruct (IH (conversation ++ [toolMessage (api.Name (api.Function toolCall))
                                     (storedText r)]) w1)
      as (results & w' & tr & -> & Hans).
    eexists (_ :: results), w', _. split.
    + by rewrite <- app_assoc.
    + by constructor.
Qed.

Lemma foldl_last_message (resps : list api.ChatResponse) (m0 : api.Message) :
  foldl (fun _ resp => api.resp_Message resp) m0 resps
  = match last resps with
    | Some resp => api.resp_Message resp
    | None => m0
    end.
Proof.
  revert m0; induction resps as [|resp resps IH]; intros m0; [done|].
  simpl. rewrite IH. destruct resps as [|r resps]; [done|].
  rewrite last_cons_cons. destruct (last (r :: resps)) eqn:Hl; [done|].
  by apply last_None in Hl.
Qed.

Lemma runInference_spec a conversation tools w :
  runInference a conversation tools w
  = (let req := {| api.Model := model a; api.Messages := conversation;
                   api.Tools := tools; api.Stream := false |} in
     let '((resps, err), w') := ollama_Chat req w in
     (match err with
      | Some e => Err e
      | None => Ok (match last resps with
                    | Some resp => api.resp_Message resp
                    | None => api.zeroMessage
                    end)
      end, w', [EvChat req])).
Proof.
  unfold runInference, bind, Chat. simpl.
  destruct (ollama_Chat _ w) as [[resps [e|]] w']; simpl;
    by rewrite ?foldl_last_message.
Qed.

(** The callback of the streaming variant never touches the world. *)
Lemma respFunc_world captured resp w :
  exists captured' tr, respFunc captured resp w = (captured', w, tr).
Proof.
  destruct captured as [fm cb]. unfold respFunc, bind, print, emit, ret.
  destruct (negb _), (api.Done resp); simpl; by eexists _, _.
Qed.

Lemma foldM_respFunc_world resps : forall captured w,
  exists captured' tr, foldM respFunc captured resps w = (captured', w, tr).
Proof.
  induction resps as [|resp resps IH]; intros captured w; simpl.
  - by eexists _, _.
  - unfold bind. destruct (respFunc_world captured resp w) as (c1 & t1 & ->).
    destruct (IH c1 w) as (c2 & t2 & ->). by eexists _, _.
Qed.

(** Text accumulates over the whole stream. *)
Lemma respFunc_content fm cb resp w :
  (respFunc (fm, cb) resp w).1.1.2 = cb +:+ api.Content (api.resp_Message resp).
Proof.
  unfold respFunc, bind, print, emit, ret.
  destruct (String.eqb_spec (api.Content (api.resp_Message resp)) "") as [->|];
    destruct (api.Done resp); simpl; by rewrite ?append_empty.
Qed.

Lemma streamedText_app l1 l2 :
  streamedText (l1 ++ l2) = streamedText l1 +:+ streamedText l2.
Proof.
  unfold streamedText. induction l1 as [|r l1 IH]; csimpl; [done|].
  by rewrite IH, append_assoc.
Qed.

Lemma streamedText_one resp :
  streamedText [resp] = api.Content (api.resp_Message resp).
Proof. unfold streamedText. simpl. apply append_empty. Qed.

Lemma foldM_respFunc_content resps : forall fm cb w,
  (foldM respFunc (fm, cb) resps w).1.1.2
  = cb +:+ streamedText resps.
Proof.
  induction resps as [|resp resps IH]; intros fm cb w.
  - simpl. by rewrite append_empty.
  - change (foldM respFunc (fm, cb) (resp :: resps))
      with (bind (respFunc (fm, cb) resp) (fun c => foldM respFunc c resps)).
    unfold bind.
    pose proof (respFunc_content fm cb resp w) as Hc.
    destruct (respFunc (fm, cb) resp w) as [[[fm1 cb1] w1] t1]. simpl in Hc.
    specialize (IH fm1 cb1 w1).
    destruct (foldM respFunc (fm1, cb1) resps w1) as [[[fm2 cb2] w2] t2].
    simpl in *. subst cb2 cb1. unfold streamedText. simpl.
    by rewrite append_assoc.
Qed.

(** The response with the completion flag replaces whatever was gathered
    before it, and its own tool calls are then appended to themselves. *)
Lemma respFunc_done fm cb resp w :
  api.Done resp = true ->
  (respFunc (fm, cb) resp w).1.1.1
  = {| api.Role := api.Role (api.resp_Message resp);
       api.Content := cb +:+ api.Content (api.resp_Message resp);
       api.ToolCalls := api.ToolCalls (api.resp_Message resp)
                        ++ api.ToolCalls (api.resp_Message resp);
       api.ToolName := api.ToolName (api.resp_Message resp) |}.
Proof.
  intros Hd. unfold respFunc, bind, print, emit, ret. rewrite Hd.
  destruct (String.eqb_spec (api.Content (api.resp_Message resp)) "") as [->|];
    simpl; destruct (api.ToolCalls (api.resp_Message resp)) eqn:Htc; simpl;
    unfold withToolCalls, withContent; simpl; by rewrite ?append_empty, ?Htc.
Qed.

Lemma runInferenceStreaming_done a conversation tools w before final w' :
  ollama_Chat {| api.Model := model a; api.Stream := true;
                 api.Messages := conversation; api.Tools := tools |} w
    = ((before ++ [final], None), w') ->
  api.Done final = true ->
  exists tr,
    runInferenceStreaming a conversation tools w
    = (Ok (streamedMessage before final), w', tr).
Proof.
  intros Hchat Hd. unfold runInferenceStreaming, bind, Chat. rewrite Hchat.
  rewrite foldM_app.
  pose proof (foldM_respFunc_content before api.zeroMessage "" w') as Hc.
  destruct (foldM_respFunc_world before (api.zeroMessage, EmptyString) w')
    as ([fm cb] & t1 & Hb).
  rewrite Hb in Hc |- *. simpl in Hc. rewrite append_nil in Hc. subst cb.
  rewrite foldM_singleton.
  pose proof (respFunc_done fm (streamedText before) final w' Hd) as Hf.
  destruct (respFunc_world (fm, streamedText before) final w')
    as ([fm' cb'] & t2 & Hr).
  rewrite Hr in Hf |- *. simpl in Hf. subst fm'. simpl.
  eexists. unfold streamedMessage. by rewrite streamedText_app, streamedText_one.
Qed.

Lemma runInferenceStreaming_failed a conversation tools w resps e w' :
  ollama_Chat {| api.Model := model a; api.Stream := true;
                 api.Messages := conversation; api.Tools := tools |} w
    = ((resps, Some e), w') ->
  exists tr,
    runInferenceStreaming a conversation tools w
    = (Err ("chat streaming error: " +:+ e), w', tr).
Proof.
  intros Hchat. unfold runInferenceStreaming, bind, Chat. rewrite Hchat.
  destruct (foldM_respFunc_world resps (api.zeroMessage, EmptyString) w')
    as ([fm cb] & t1 & ->).
  simpl. by eexists.
Qed.

(** *** The loops, one iteration at a time *)

Lemma toolRounds_no_calls fuel a tools conversation message w :
  api.ToolCalls message = [] ->
  toolRounds (S fuel) a tools conversation message w
  = (Some (conversation, None), w, shownReply a message).
Proof.
  intros Hnil. simpl. rewrite Hnil. unfold shownReply, bind, print, emit, ret.
  destruct (negb (stream a) && _); simpl; done.
Qed.

Lemma toolRounds_calls fuel a tools conversation message w
      conversation1 w1 t1 r w2 t2 :
  api.ToolCalls message <> [] ->
  foldM (callOne a) conversation (api.ToolCalls message) w
    = (conversation1, w1, t1) ->
  runInference a conversation1 tools w1 = (r, w2, t2) ->
  toolRounds (S fuel) a tools conversation message w
  = match r with
    | Err err =>
        (Some (conversation1, Some err), w2, shownReply a message ++ t1 ++ t2)
    | Ok message1 =>
        let '(o, w3, t3) :=
          toolRounds fuel a tools (conversation1 ++ [message1]) message1 w2 in
        (o, w3, shownReply a message ++ t1 ++ t2 ++ t3)
    end.
Proof.
  intros Hcalls Htools Hinfer.
  change (toolRounds (S fuel) a tools conversation message)
    with (bind (if negb (stream a) && negb (String.eqb (api.Content message) "")
                then print (ESC +:+ "[93mOllama" +:+ ESC +:+ "[0m: "
                            +:+ api.Content message +:+ LF)
                else ret tt)
            (fun _ =>
               if 0 <? length (api.ToolCalls message) then
                 bind (foldM (callOne a) conversation (api.ToolCalls message))
                   (fun conversation =>
                      bind (runInference a conversation tools)
                        (fun r =>
                           match r with
                           | Err err => ret (Some (conversation, Some err))
                           | Ok message =>
                               toolRounds fuel a tools
                                 (conversation ++ [message]) message
                           end))
               else ret (Some (conversation, None)))).
  assert ((0 <? length (api.ToolCalls message)) = true) as ->.
  { destruct (api.ToolCalls message); [done | reflexivity]. }
  assert (Hshow : (if negb (stream a) && negb (String.eqb (api.Content message) "")
                   then print (ESC +:+ "[93mOllama" +:+ ESC +:+ "[0m: "
                               +:+ api.Content message +:+ LF)
                   else ret tt) w = (tt, w, shownReply a message)).
  { unfold shownReply. by destruct (negb (stream a) && _). }
  rewrite (bind_eq _ _ _ _ _ _ Hshow), (bind_eq _ _ _ _ _ _ Htools),
    (bind_eq _ _ _ _ _ _ Hinfer).
  destruct r as [message1|err]; simpl.
  - by destruct (toolRounds fuel a tools _ message1 w2) as [[o w3] t3].
  - by rewrite app_nil_r.
Qed.

Lemma AskOne_eq w : AskOne w = ((survey_AskOne w).1, (survey_AskOne w).2, [EvAskOne]).
Proof. unfold AskOne. by destruct (survey_AskOne w). Qed.

Lemma chatLoop_input_ended fuel a tools conversation w e w1 :
  survey_AskOne w = (Err e, w1) ->
  chatLoop (S fuel) a tools conversation w
  = (Some (conversation, None), w1, [EvAskOne]).
Proof.
  intros Hask. simpl. unfold bind. by rewrite AskOne_eq, Hask.
Qed.

Lemma chatLoop_empty_input fuel a tools conversation w w1 :
  survey_AskOne w = (Ok EmptyString, w1) ->
  chatLoop (S fuel) a tools conversation w
  = (let '(o, w2, t) := chatLoop fuel a tools conversation w1 in
     (o, w2, EvAskOne :: t)).
Proof.
  intros Hask. simpl. unfold bind. by rewrite AskOne_eq, Hask.
Qed.

Lemma chatLoop_turn fuel a tools conversation w userInput w1 r w2 t2 :
  survey_AskOne w = (Ok userInput, w1) ->
  userInput <> EmptyString ->
  firstInference a (conversation ++ [userMessage userInput]) tools w1
    = (r, w2, t2) ->
  chatLoop (S fuel) a tools conversation w
  = match r with
    | Err err =>
        (Some (conversation ++ [userMessage userInput], Some err), w2,
         EvAskOne :: shownPrompt a ++ t2)
    | Ok message =>
        let '(t, w3, t3) :=
          toolRounds fuel a tools
            ((conversation ++ [userMessage userInput]) ++ [message]) message w2 in
        match t with
        | None => (None, w3, EvAskOne :: shownPrompt a ++ t2 ++ t3)
        | Some (conversation', Some err) =>
            (Some (conversation', Some err), w3,
             EvAskOne :: shownPrompt a ++ t2 ++ t3)
        | Some (conversation', None) =>
            let '(o, w4, t4) := chatLoop fuel a tools conversation' w3 in
            (o, w4, EvAskOne :: shownPrompt a ++ t2 ++ t3 ++ t4)
        end
    end.
Proof.
  intros Hask Hne Hinfer. simpl. unfold bind at 1. rewrite AskOne_eq, Hask.
  simpl. apply String.eqb_neq in Hne. rewrite Hne.
  fold (userMessage userInput).
  assert (Hfirst : (if stream a
                    then bind (print (ESC +:+ "[93mOllama" +:+ ESC +:+ "[0m:"))
                           (fun _ => runInferenceStreaming a
                              (conversation ++ [userMessage userInput]) tools)
                    else runInference a
                           (conversation ++ [userMessage userInput]) tools) w1
                   = (r, w2, shownPrompt a ++ t2)).
  { unfold firstInference, shownPrompt in *. destruct (stream a); [|done].
    unfold bind, print, emit. by rewrite Hinfer. }
  rewrite (bind_eq _ _ _ _ _ _ Hfirst).
  destruct r as [message|err]; simpl; [|by rewrite app_nil_r].
  unfold bind.
  destruct (toolRounds fuel a tools _ message w2) as [[[[c [err|]]|] w3] t3];
    simpl; rewrite ?app_nil_r, <- ?app_assoc; try done.
  destruct (chatLoop fuel a tools c w3) as [[o w4] t4].
  by rewrite <- ?app_assoc.
Qed.

(** *** Correlated conversations *)

Lemma Correlated_app c1 c2 :
  Correlated c1 -> Correlated c2 -> Correlated (c1 ++ c2).
Proof.
  induction 1 as [|u rest Hu Hn _ IH|m results rest Hm Hans _ IH]; intros H2.
  - done.
  - simpl. by constructor; [| |apply IH].
  - simpl. rewrite <- app_assoc. by constructor; [| |apply IH].
Qed.

Lemma Correlated_user conversation userInput :
  Correlated conversation ->
  Correlated (conversation ++ [userMessage userInput]).
Proof.
  intros Hc. apply Correlated_app; [done|]. by repeat constructor.
Qed.

Lemma Correlated_assistant conversation message results :
  Correlated conversation ->
  api.Role message = "assistant" ->
  Forall2 answers (api.ToolCalls message) results ->
  Correlated ((conversation ++ [message]) ++ results).
Proof.
  intros Hc Hm Hans. rewrite <- app_assoc. apply Correlated_app; [done|].
  simpl. rewrite <- (app_nil_r results). by constructor; [| |constructor].
Qed.

Lemma hasRole_true m role : api.Role m = role -> hasRole role m = true.
Proof. intros <-. apply String.eqb_refl. Qed.

Lemma hasRole_false m role role' :
  api.Role m = role' -> role' <> role -> hasRole role m = false.
Proof. intros <- Hne. by apply String.eqb_neq. Qed.

Lemma answers_filter calls results :
  Forall2 answers calls results ->
  List.filter (hasRole "tool") results = results
  /\ List.filter (hasRole "assistant") results = [].
Proof.
  induction 1 as [|toolCall m calls results [Hr _] _ [IH1 IH2]]; [done|].
  simpl. rewrite (hasRole_true m "tool"), (hasRole_false m "assistant" "tool");
    [by rewrite IH1, IH2 | done..].
Qed.

Lemma Correlated_count conversation :
  Correlated conversation ->
  toolMessages conversation = toolCallsIssued conversation.
Proof.
  unfold toolMessages, toolCallsIssued.
  induction 1 as [|u rest Hu Hn _ IH|m results rest Hm Hans _ IH]; [done| |].
  - simpl. by rewrite (hasRole_false u "tool" "user"),
      (hasRole_false u "assistant" "user").
  - simpl. rewrite (hasRole_false m "tool" "assistant"),
      (hasRole_true m "assistant") by done. simpl.
    destruct (answers_filter _ _ Hans) as [Ht Ha].
    rewrite !List.filter_app, Ht, Ha, length_app, IH. simpl.
    by rewrite (Forall2_length _ _ _ Hans).
Qed.

(** *** What the provider's interface gives *)

Lemma runInference_assistant a conversation tools w message w' t :
  providerKeepsInterface ->
  runInference a conversation tools w = (Ok message, w', t) ->
  api.Role message = "assistant".
Proof.
  intros Hp. rewrite runInference_spec. simpl.
  specialize (Hp {| api.Model := model a; api.Messages := conversation;
                    api.Tools := tools; api.Stream := false |} w).
  destruct (ollama_Chat _ w) as [[resps [e|]] w1]; [done|].
  destruct Hp as [Hall (before & final & -> & _)]; [done|].
  rewrite last_snoc. intros [= <- _ _].
  apply Forall_app in Hall as [_ Hf]. by inversion_clear Hf.
Qed.

Lemma runInferenceStreaming_assistant a conversation tools w message w' t :
  providerKeepsInterface ->
  runInferenceStreaming a conversation tools w = (Ok message, w', t) ->
  api.Role message = "assistant".
Proof.
  intros Hp Hrun.
  specialize (Hp {| api.Model := model a; api.Stream := true;
                    api.Messages := conversation; api.Tools := tools |} w).
  destruct (ollama_Chat _ w) as [[resps [e|]] w1] eqn:Hchat.
  - destruct (runInferenceStreaming_failed _ _ _ _ _ _ _ Hchat) as [tr Hf].
    by rewrite Hf in Hrun.
  - destruct Hp as [Hall (before & final & -> & Hd)]; [done|].
    destruct (runInferenceStreaming_done _ _ _ _ _ _ _ Hchat Hd) as [tr Hf].
    rewrite Hf in Hrun. injection Hrun as <- _ _. simpl.
    apply Forall_app in Hall as [_ Hf']. by inversion_clear Hf'.
Qed.

Lemma firstInference_assistant a conversation tools w message w' t :
  providerKeepsInterface ->
  firstInference a conversation tools w = (Ok message, w', t) ->
  api.Role message = "assistant".
Proof.
  unfold firstInference. destruct (stream a);
    eauto using runInference_assistant, runInferenceStreaming_assistant.
Qed.

(** *** The conversation stays correlated *)

Lemma toolRounds_Correlated a tools fuel :
  providerKeepsInterface ->
  forall conversation message w conversation' e w' tr,
    Correlated conversation ->
    api.Role message = "assistant" ->
    toolRounds fuel a tools (conversation ++ [message]) message w
      = (Some (conversation', e), w', tr) ->
    Correlated conversation'.
Proof.
  intros Hp. induction fuel as [|fuel IH];
    intros conversation message w conversation' e w' tr Hc Hm Hrun; [done|].
  destruct (api.ToolCalls message) as [|c0 cs] eqn:Hcalls.
  - rewrite toolRounds_no_calls in Hrun by done. injection Hrun as <- _ _ _.
    rewrite <- (app_nil_r (_ ++ [message])).
    apply Correlated_assistant; [done..|]. rewrite Hcalls. constructor.
  - destruct (foldM_callOne a (api.ToolCalls message) (conversation ++ [message]) w)
      as (results & w1 & t1 & Hfold & Hans).
    destruct (runInference a ((conversation ++ [message]) ++ results) tools w1)
      as [[r w2] t2] eqn:Hinfer.
    rewrite (toolRounds_calls _ _ _ _ _ _ _ _ _ _ _ _
               ltac:(by rewrite Hcalls) Hfold Hinfer) in Hrun.
    pose proof (Correlated_assistant _ _ _ Hc Hm Hans) as Hc1.
    destruct r as [message1|err].
    + destruct (toolRounds fuel a tools _ message1 w2) as [[o w3] t3] eqn:Hnext.
      injection Hrun as -> -> _.
      eapply IH; [exact Hc1 | | exact Hnext].
      by eapply runInference_assistant.
    + by injection Hrun as <- _ _ _.
Qed.

Lemma chatLoop_Correlated a tools fuel :
  providerKeepsInterface ->
  forall conversation w conversation' e w' tr,
    Correlated conversation ->
    chatLoop fuel a tools conversation w = (Some (conversation', e), w', tr) ->
    Correlated conversation'.
Proof.
  intros Hp. induction fuel as [|fuel IH];
    intros conversation w conversation' e w' tr Hc Hrun; [done|].
  destruct (survey_AskOne w) as [[userInput|err] w1] eqn:Hask.
  - destruct (String.eqb_spec userInput "") as [->|Hne].
    + rewrite (chatLoop_empty_input _ _ _ _ _ _ Hask) in Hrun.
      destruct (chatLoop fuel a tools conversation w1) as [[o w2] t] eqn:Hnext.
      injection Hrun as -> -> _. by eapply IH.
    + destruct (firstInference a (conversation ++ [userMessage userInput]) tools w1)
        as [[r w2] t2] eqn:Hinfer.
      rewrite (chatLoop_turn _ _ _ _ _ _ _ _ _ _ Hask Hne Hinfer) in Hrun.
      pose proof (Correlated_user _ userInput Hc) as Hc1.
      destruct r as [message|err]; [|by injection Hrun as <- _ _ _].
      destruct (toolRounds fuel a tools _ message w2) as [[t w3] t3] eqn:Hturn.
      destruct t as [[c [err|]]|]; [| |done].
      * injection Hrun as <- _ _ _.
        eapply toolRounds_Correlated; [done | exact Hc1 | | exact Hturn].
        by eapply firstInference_assistant.
      * destruct (chatLoop fuel a tools c w3) as [[o w4] t4] eqn:Hnext.
        injection Hrun as -> -> _. eapply IH; [|exact Hnext].
        eapply toolRounds_Correlated; [done | exact Hc1 | | exact Hturn].
        by eapply firstInference_assistant.
  - rewrite (chatLoop_input_ended _ _ _ _ _ _ _ Hask) in Hrun.
    by injection Hrun as <- _ _ _.
Qed.
End Orchestrator.

Section Run.
Context `{Externals}.
Import agent.

Lemma GetTools_eq c w :
  mcp.GetTools c w
  = (Ok (mcp.getToolsFrom [] (map_to_list (mcp.sessions c)) w).1.1,
     (mcp.getToolsFrom [] (map_to_list (mcp.sessions c)) w).1.2,
     (mcp.getToolsFrom [] (map_to_list (mcp.sessions c)) w).2).
Proof.
  unfold mcp.GetTools, bind, ret.
  destruct (mcp.getToolsFrom _ _ w) as [[tools w1] t1]. simpl.
  by rewrite app_nil_r.
Qed.

(** [Run] fetches the catalog, which cannot fail, and enters the loop. *)
Lemma Run_eq fuel a w :
  exists tools w1 t1,
    Run fuel a w
    = (let '(o, w2, t2) := chatLoop fuel a tools [] w1 in (o, w2, t1 ++ t2)).
Proof.
  unfold Run. unfold bind at 1. rewrite GetTools_eq.
  destruct (mcp.getToolsFrom _ _ w) as [[tools w1] t1]. simpl.
  exists tools, w1,
    (t1 ++ [Stdout ("Chat with Ollama + MCP (use 'ctrl-c' to quit)" +:+ LF);
            Stdout ("Available tools: " +:+ pretty (length tools) +:+ LF)]).
  unfold bind, print, emit.
  destruct (chatLoop fuel a tools [] w1) as [[o w2] t2]. simpl.
  by rewrite <- app_assoc.
Qed.

Lemma toolRounds_abort a tools fuel :
  forall conversation message w conversation' e w' tr,
    toolRounds fuel a tools conversation message w
      = (Some (conversation', Some e), w', tr) ->
    inferenceFailed a e.
Proof.
  induction fuel as [|fuel IH];
    intros conversation message w conversation' e w' tr Hrun; [done|].
  destruct (api.ToolCalls message) as [|c0 cs] eqn:Hcalls.
  - by rewrite toolRounds_no_calls in Hrun.
  - destruct (foldM (callOne a) conversation (api.ToolCalls message) w)
      as [[conversation1 w1] t1] eqn:Hfold.
    destruct (runInference a conversation1 tools w1) as [[r w2] t2] eqn:Hinfer.
    rewrite (toolRounds_calls _ _ _ _ _ _ _ _ _ _ _ _
               ltac:(by rewrite Hcalls) Hfold Hinfer) in Hrun.
    destruct r as [message1|err].
    + destruct (toolRounds fuel a tools _ message1 w2) as [[o w3] t3] eqn:Hnext.
      injection Hrun as -> _ _. by eapply IH.
    + injection Hrun as _ <- _ _. exists conversation1, tools, w1, w2, t2.
      by right.
Qed.

Lemma chatLoop_abort a tools fuel :
  forall conversation w conversation' e w' tr,
    chatLoop fuel a tools conversation w = (Some (conversation', Some e), w', tr) ->
    inferenceFailed a e.
Proof.
  induction fuel as [|fuel IH];
    intros conversation w conversation' e w' tr Hrun; [done|].
  destruct (survey_AskOne w) as [[userInput|err] w1] eqn:Hask.
  - destruct (String.eqb_spec userInput "") as [->|Hne].
    + rewrite (chatLoop_empty_input _ _ _ _ _ _ Hask) in Hrun.
      destruct (chatLoop fuel a tools conversation w1) as [[o w2] t] eqn:Hnext.
      injection Hrun as -> _ _. by eapply IH.
    + destruct (firstInference a (conversation ++ [userMessage userInput]) tools w1)
        as [[r w2] t2] eqn:Hinfer.
      rewrite (chatLoop_turn _ _ _ _ _ _ _ _ _ _ Hask Hne Hinfer) in Hrun.
      destruct r as [message|err].
      * destruct (toolRounds fuel a tools _ message w2) as [[t w3] t3] eqn:Hturn.
        destruct t as [[c [err|]]|]; [| |done].
        -- injection Hrun as _ <- _ _. by eapply toolRounds_abort.
        -- destruct (chatLoop fuel a tools c w3) as [[o w4] t4] eqn:Hnext.
           injection Hrun as -> _ _. by eapply IH.
      * injection Hrun as _ <- _ _. eexists _, tools, w1, w2, t2. by left.
  - by rewrite (chatLoop_input_ended _ _ _ _ _ _ _ Hask) in Hrun.
Qed.
End Run.

Section OrchestratorClaims.
Context `{Externals}.
Import agent.

(** C4: at every exit of [Run], with or without an error, each assistant
    message of the conversation is followed at once by exactly one tool
    message per tool call, in order and under the call's tool name, and the
    tool messages are as many as the tool calls of the assistant messages. *)
Theorem conversation_correlation fuel a w conversation e w' tr :
  providerKeepsInterface ->
  Run fuel a w = (Some (conversation, e), w', tr) ->
  Correlated conversation
  /\ toolMessages conversation = toolCallsIssued conversation.
Proof.
  intros Hp Hrun. destruct (Run_eq fuel a w) as (tools & w1 & t1 & Heq).
  rewrite Heq in Hrun.
  destruct (chatLoop fuel a tools [] w1) as [[o w2] t2] eqn:Hloop.
  injection Hrun as -> _ _.
  assert (Correlated conversation) as Hc.
  { eapply chatLoop_Correlated; [done | constructor | exact Hloop]. }
  split; [done | by apply Correlated_count].
Qed.

(** C6: a failed tool call, whatever the class of its error, ends as a
    tool message carrying ["Error: "] and the error text; after the calls
    of a message the loop asks the model again; and [Run] returns an error
    only when an inference call returned it. *)
Theorem tool_errors_feed_back a :
  (forall conversation toolCall w e w1 t,
      mcp.CallTool (mcpClient a) (api.Name (api.Function toolCall))
        (api.Arguments (api.Function toolCall)) w = (Err e, w1, t) ->
      callOne a conversation toolCall w
      = (conversation
           ++ [toolMessage (api.Name (api.Function toolCall)) ("Error: " +:+ e)],
         w1,
         Stdout (callLine toolCall) :: t
           ++ [Stdout (ESC +:+ "[91merror" +:+ ESC +:+ "[0m: " +:+ e +:+ LF)]))
  /\ (forall conversation args w,
        mcp.sessions (mcpClient a) !! "ghost" = None ->
        let toolCall :=
          {| api.Function := {| api.Name := "ghost__read";
                                api.Arguments := args |} |} in
        callOne a conversation toolCall w
        = (conversation
             ++ [toolMessage "ghost__read" "Error: server ghost not found"],
           w,
           [Stdout (callLine toolCall);
            Stdout (ESC +:+ "[91merror" +:+ ESC +:+ "[0m: "
                    +:+ "server ghost not found" +:+ LF)]))
  /\ (forall fuel tools conversation message w,
        api.ToolCalls message <> [] ->
        exists results w1 t1,
          foldM (callOne a) conversation (api.ToolCalls message) w
            = (conversation ++ results, w1, t1)
          /\ Forall2 answers (api.ToolCalls message) results
          /\ toolRounds (S fuel) a tools conversation message w
             = (let '(r, w2, t2) :=
                  runInference a (conversation ++ results) tools w1 in
                match r with
                | Err err =>
                    (Some (conversation ++ results, Some err), w2,
                     shownReply a message ++ t1 ++ t2)
                | Ok message1 =>
                    let '(o, w3, t3) :=
                      toolRounds fuel a tools
                        ((conversation ++ results) ++ [message1]) message1 w2 in
                    (o, w3, shownReply a message ++ t1 ++ t2 ++ t3)
                end))
  /\ (forall fuel w conversation e w' tr,
        Run fuel a w = (Some (conversation, Some e), w', tr) ->
        inferenceFailed a e).
Proof.
  split_and!.
  - intros conversation toolCall w e w1 t Hcall.
    by rewrite callOne_spec, Hcall.
  - intros conversation args w Hghost toolCall.
    rewrite callOne_spec. simpl.
    by rewrite (CallTool_unknown_provider _ "ghost__read" _ _ "ghost" "read").
  - intros fuel tools conversation message w Hcalls.
    destruct (foldM_callOne a (api.ToolCalls message) conversation w)
      as (results & w1 & t1 & Hfold & Hans).
    exists results, w1, t1. split_and!; [done..|].
    destruct (runInference a (conversation ++ results) tools w1)
      as [[r w2] t2] eqn:Hinfer.
    by rewrite (toolRounds_calls _ _ _ _ _ _ _ _ _ _ _ _ Hcalls Hfold Hinfer).
  - intros fuel w conversation e w' tr Hrun.
    destruct (Run_eq fuel a w) as (tools & w1 & t1 & Heq). rewrite Heq in Hrun.
    destruct (chatLoop fuel a tools [] w1) as [[o w2] t2] eqn:Hloop.
    injection Hrun as -> _ _. by eapply chatLoop_abort.
Qed.

(** C7: the tool message appended for a successful call carries the whole
    formatted result, while the line shown to the operator carries
    [truncateString] of it at 500; text and bytes are formatted as
    themselves, any other value as the document the JSON serializer gives. *)
Theorem tool_results_stored_in_full a conversation toolCall w result w1 t :
  mcp.CallTool (mcpClient a) (api.Name (api.Function toolCall))
    (api.Arguments (api.Function toolCall)) w = (Ok result, w1, t) ->
  callOne a conversation toolCall w
  = (conversation
       ++ [toolMessage (api.Name (api.Function toolCall)) (formatToolResult result)],
     w1,
     Stdout (callLine toolCall) :: t
       ++ [Stdout (ESC +:+ "[92mresult" +:+ ESC +:+ "[0m: "
                   +:+ truncateString (formatToolResult result) 500 +:+ LF)])
  /\ (forall v, formatToolResult (any_string v) = v)
  /\ (forall v, formatToolResult (any_bytes v) = string_of_list_byte v)
  /\ (forall v document,
        json_MarshalIndent v = Ok document ->
        formatToolResult (any_other v) = document)
  /\ (forall s, String.length s <= 500 -> truncateString s 500 = s)
  /\ (forall s, 500 < String.length s ->
        truncateString s 500 = Strings.take 500 s +:+ "... (truncated)"
        /\ String.length (Strings.take 500 s) = 500
        /\ Strings.HasPrefix s (Strings.take 500 s) = true).
Proof.
  intros Hcall. split_and!.
  - by rewrite callOne_spec, Hcall.
  - done.
  - done.
  - intros v document Hdoc. simpl. by rewrite Hdoc.
  - intros s Hs. unfold truncateString.
    by destruct (Nat.leb_spec (String.length s) 500); [|lia].
  - intros s Hs. unfold truncateString.
    destruct (Nat.leb_spec (String.length s) 500); [lia|].
    split_and!; [done | apply length_take; lia | apply HasPrefix_take].
Qed.

(** C9: once the model answers with a message without tool calls, the
    inner loop ends and hands the conversation back, after any number of
    rounds; the outer loop then goes back to asking the user. *)
Theorem turn_converges a tools n conversation message w
        conversation' message' w' :
  Rounds a tools n conversation message w conversation' message' w' ->
  api.ToolCalls message' = [] ->
  forall fuel, n < fuel ->
    (exists tr,
        toolRounds fuel a tools conversation message w
        = (Some (conversation', None), w', tr))
    /\ (forall before w0 userInput w1 t1,
          survey_AskOne w0 = (Ok userInput, w1) ->
          userInput <> EmptyString ->
          firstInference a (before ++ [userMessage userInput]) tools w1
            = (Ok message, w, t1) ->
          conversation = (before ++ [userMessage userInput]) ++ [message] ->
          exists tr,
            chatLoop (S fuel) a tools before w0
            = (let '(o, w2, t2) := chatLoop fuel a tools conversation' w' in
               (o, w2, tr ++ t2))).
Proof.
  intros Hrounds Hnil.
  assert (Hinner : forall fuel, n < fuel ->
            exists tr, toolRounds fuel a tools conversation message w
                       = (Some (conversation', None), w', tr)).
  { induction Hrounds as [conversation message w
                         |n conversation message w conversation1 w1 message1 w2
                            conversation' message' w' Hcalls Hfold Hinfer _ IH];
      intros [|fuel] Hlt; try lia.
    - eexists. by apply toolRounds_no_calls.
    - destruct (foldM (callOne a) conversation (api.ToolCalls message) w)
        as [[c1 wa] t1] eqn:Hf. simpl in Hfold. injection Hfold as -> ->.
      destruct (runInference a conversation1 tools w1) as [[r wb] t2] eqn:Hi.
      simpl in Hinfer. injection Hinfer as -> ->.
      destruct (IH Hnil fuel ltac:(lia)) as [tr Htr].
      rewrite (toolRounds_calls _ _ _ _ _ _ _ _ _ _ _ _ Hcalls Hf Hi), Htr.
      by eexists. }
  intros fuel Hlt. split; [by apply Hinner|].
  intros before w0 userInput w1 t1 Hask Hne Hfirst ->.
  destruct (Hinner fuel Hlt) as [tr Htr].
  rewrite (chatLoop_turn _ _ _ _ _ _ _ _ _ _ Hask Hne Hfirst), Htr.
  destruct (chatLoop fuel a tools conversation' w') as [[o w2] t2].
  exists (EvAskOne :: shownPrompt a ++ t1 ++ tr).
  simpl. by rewrite <- !app_assoc.
Qed.
End OrchestratorClaims.

(** ** The program on the scripted world *)

Section OnTheScriptedWorld.
Import Scripted agent.
#[local] Existing Instance data.
#[local] Existing Instance externals.

Lemma scripted_keeps_interface : providerKeepsInterface.
Proof.
  intros req w. simpl. unfold chat.
  destruct (replies w) as [|[fs e] rest]; [by split|].
  split.
  - apply Forall_fmap, Forall_forall. by intros f _.
  - destruct e as [e|]; [done|]. unfold complete.
    destruct (last fs) as [f|] eqn:Hlast; [|done].
    destruct (done_ f) eqn:Hd; [|done]. intros _.
    apply last_Some in Hlast as [before ->].
    exists (response <$> before), (response f). by rewrite fmap_app.
Defined.

(** C3: the streaming variant on two streams. In the first the tool call
    arrives before the response that carries the completion flag and is
    lost; in the second it arrives with that response and is returned
    twice. *)
Theorem streaming_loses_or_doubles_tool_calls :
  let call := ("fs__read_file", "a.txt") in
  let early := {| content := "Let me look"; calls := [call]; done_ := false |} in
  let last_ := {| content := ""; calls := []; done_ := true |} in
  let both := {| content := "Let me look"; calls := [call]; done_ := true |} in
  (runInferenceStreaming streamingAssistant [] []
     (script [] [([early; last_], None)])).1.1
  = Ok {| api.Role := "assistant"; api.Content := "Let me look";
          api.ToolCalls := []; api.ToolName := "" |}
  /\ (runInferenceStreaming streamingAssistant [] []
        (script [] [([both], None)])).1.1
     = Ok {| api.Role := "assistant"; api.Content := "Let me look";
             api.ToolCalls := [toolCall call; toolCall call];
             api.ToolName := "" |}.
Proof. split; reflexivity. Qed.

Lemma conversation_correlation_witness :
  let w := script ["read a.txt"; "and the ghost?"]
             [([ask "fs__read_file" "a.txt"], None);
              ([say "It says hello."], None);
              ([ask "ghost__read" "a.txt"], None);
              ([say "No such provider."], None)] in
  exists conversation,
    (Run 5 assistant w).1.1 = Some (conversation, None)
    /\ length conversation = 8
    /\ Correlated conversation
    /\ toolMessages conversation = toolCallsIssued conversation.
Proof.
  intros w. eexists. split; [reflexivity|]. split; [reflexivity|].
  eapply (conversation_correlation 5 assistant w).
  - exact scripted_keeps_interface.
  - reflexivity.
Defined.

Lemma tool_results_stored_in_full_witness :
  callOne assistant [] readCall (script [] [])
  = ([toolMessage "fs__read_file" "contents of a.txt"], script [] [],
     [Stdout (callLine readCall); EvCallTool "fs" "read_file" "a.txt";
      Stdout (ESC +:+ "[92mresult" +:+ ESC +:+ "[0m: contents of a.txt" +:+ LF)]).
Proof.
  exact (proj1 (tool_results_stored_in_full assistant [] readCall (script [] [])
                  (any_other "contents of a.txt") (script [] [])
                  [EvCallTool "fs" "read_file" "a.txt"] eq_refl)).
Defined.

Lemma scripted_round :
  Rounds assistant [] 1
    [userMessage "read a.txt"; firstReply] firstReply
    (script [] [([say "It says hello."], None)])
    [userMessage "read a.txt"; firstReply;
     toolMessage "fs__read_file" "contents of a.txt"; lastReply]
    lastReply (script [] []).
Proof.
  eapply rounds_S; [done | reflexivity | reflexivity | apply rounds_O].
Defined.

Lemma turn_converges_witness :
  exists tr,
    toolRounds 2 assistant []
      [userMessage "read a.txt"; firstReply] firstReply
      (script [] [([say "It says hello."], None)])
    = (Some ([userMessage "read a.txt"; firstReply;
              toolMessage "fs__read_file" "contents of a.txt"; lastReply], None),
       script [] [], tr).
Proof.
  exact (proj1 (turn_converges assistant [] 1 _ _ _ _ _ _ scripted_round eq_refl
                  2 (Nat.lt_succ_diag_r 1))).
Defined.

Lemma CallTool_empty_sides_witness :
  mcp.CallTool client "__" "a.txt" (script [] [])
  = (Err "server  not found", script [] [], []).
Proof.
  exact (proj1 (proj2 (CallTool_empty_sides client "a.txt" (script [] []) eq_refl))).
Defined.

Lemma tool_errors_feed_back_witness :
  callOne assistant [] ghostCall (script [] [])
  = ([toolMessage "ghost__read" "Error: server ghost not found"], script [] [],
     [Stdout (callLine ghostCall);
      Stdout (ESC +:+ "[91merror" +:+ ESC +:+ "[0m: server ghost not found" +:+ LF)]).
Proof.
  exact (proj1 (proj2 (tool_errors_feed_back assistant)) [] "a.txt" (script [] [])
           eq_refl).
Defined.
End OnTheScriptedWorld.

(** ** More on tool names *)

Section MoreToolNames.
Import Strings.

Lemma Index_app_le a sep r :
  exists k, Index (a +:+ sep +:+ r) sep = Some k /\ k <= String.length a.
Proof.
  induction a as [|c a (k & Hk & Hle)].
  - exists 0. by rewrite Index_eq, append_nil, prefix_app.
  - rewrite Index_eq. destruct (String.prefix sep _).
    + exists 0. split; [done | lia].
    + rewrite append_cons, Hk. exists (S k). split; [done | simpl; lia].
Qed.

(** Nothing before the first separator holds a separator. *)
Lemma Index_first p sep r :
  sep <> EmptyString ->
  Index (p +:+ sep +:+ r) sep = Some (String.length p) ->
  Contains p sep = false.
Proof.
  intros Hsep Hi. destruct (Contains p sep) eqn:Hc; [|done].
  apply Contains_spec in Hc as (a & b & ->).
  rewrite append_assoc, append_assoc in Hi.
  destruct (Index_app_le a sep (b +:+ sep +:+ r)) as (k & Hk & Hle).
  rewrite Hk in Hi. injection Hi as ->.
  rewrite !length_append in Hle.
  assert (0 < String.length sep) by (destruct sep; [done | simpl; lia]). lia.
Qed.

(** X1: a name that [parseToolName] accepts is the qualified name of the two
    parts it returns, and the separator occurs in neither part. *)
Theorem parseToolName_inverse name p t :
  parseToolName name = Ok (p, t) ->
  qualifiedName p t = name
  /\ occurrences p separator = []
  /\ occurrences t separator = [].
Proof.
  intros (-> & Hi & Ht)%parseToolName_Ok_iff.
  rewrite <- !Index_None_occurrences. unfold Contains in Ht.
  split_and!; [done | | by destruct (Index t separator)].
  pose proof (Index_first p separator t separator_nonempty Hi) as Hp.
  unfold Contains in Hp. by destruct (Index p separator).
Qed.

Lemma parseToolName_inverse_witness :
  qualifiedName "fs" "read_file" = "fs__read_file"
  /\ occurrences "fs" separator = []
  /\ occurrences "read_file" separator = [].
Proof. exact (parseToolName_inverse "fs__read_file" "fs" "read_file" eq_refl). Defined.

(** X2: two providers with well-formed names never share a qualified name,
    whatever separator-free tools they list: a qualified name determines
    the provider and the tool. *)
Theorem qualifiedName_injective p t p' t' :
  occurrences p separator = [] -> HasSuffix p "_" = false ->
  occurrences t separator = [] ->
  occurrences p' separator = [] -> HasSuffix p' "_" = false ->
  occurrences t' separator = [] ->
  qualifiedName p t = qualifiedName p' t' ->
  p = p' /\ t = t'.
Proof.
  rewrite <- !Index_None_occurrences.
  intros Hp Hs Ht Hp' Hs' Ht' Heq.
  assert (Hc : forall s, Index s separator = None -> Contains s separator = false)
    by (intros s Hn; unfold Contains; by rewrite Hn).
  pose proof (parseToolName_qualifiedName p t (Hc _ Hp) Hs (Hc _ Ht)) as H1.
  rewrite Heq, (parseToolName_qualifiedName p' t' (Hc _ Hp') Hs' (Hc _ Ht')) in H1.
  by injection H1 as -> ->.
Qed.

Lemma qualifiedName_injective_witness : "fs" = "fs" /\ "read_file" = "read_file".
Proof.
  exact (qualifiedName_injective "fs" "read_file" "fs" "read_file"
           eq_refl eq_refl eq_refl eq_refl eq_refl eq_refl eq_refl).
Defined.
End MoreToolNames.

(** ** More on the registry *)

Section MoreRegistry.
Context `{Externals}.
Import mcp.

(** X3: the router calls at most one session, the one registered under the
    provider part of the name; when the name does not parse or names no
    registered provider it calls nothing and leaves the world as it was. *)
Theorem CallTool_touches_only_the_owner c name args w :
  (exists e, CallTool c name args w = (Err e, w, [])
             /\ (parseToolName name = Err e
                 \/ exists p t, parseToolName name = Ok (p, t)
                                /\ sessions c !! p = None))
  \/ (exists p t s, parseToolName name = Ok (p, t)
                    /\ sessions c !! p = Some s
                    /\ (CallTool c name args w).2 = [EvCallTool s t args]
                    /\ (CallTool c name args w).1.2
                       = (session_CallTool s t args w).2).
Proof.
  destruct (parseToolName name) as [[p t]|e] eqn:Hparse.
  - destruct (sessions c !! p) as [s|] eqn:Hs.
    + right. exists p, t, s.
      by rewrite (CallTool_forward _ _ _ _ _ _ _ Hparse Hs).
    + left. eexists. split; [by apply CallTool_unknown_provider with (toolName := t)|].
      right. by exists p, t.
  - left. exists e. split; [by apply CallTool_naming_error | by left].
Qed.

(** X4: an error of the router is of exactly one of three kinds, told apart
    by how its text starts: a malformed name, an unknown provider (neither
    reaches a session), or a failure reported by the provider's session. *)
Theorem CallTool_error_kinds c name args w e w' tr :
  CallTool c name args w = (Err e, w', tr) ->
  (e = "invalid tool name format: " +:+ name /\ tr = []
   /\ Strings.HasPrefix e "i" = true)
  \/ (exists p, e = "server " +:+ p +:+ " not found" /\ tr = []
                /\ Strings.HasPrefix e "s" = true)
  \/ (exists s t e0, e = "failed to call tool: " +:+ e0
                     /\ tr = [EvCallTool s t args]
                     /\ (session_CallTool s t args w).1 = Err e0
                     /\ Strings.HasPrefix e "f" = true).
Proof.
  intros Hcall.
  destruct (parseToolName name) as [[p t]|e'] eqn:Hparse.
  - destruct (sessions c !! p) as [s|] eqn:Hs.
    + rewrite (CallTool_forward _ _ _ _ _ _ _ Hparse Hs) in Hcall.
      destruct (session_CallTool s t args w) as [[v|e0] w1] eqn:Hsess;
        simpl in Hcall; [done|].
      injection Hcall as <- _ <-. right. right. exists s, t, e0. split_and!; try done. by rewrite Hsess.
    + rewrite (CallTool_unknown_provider _ _ _ _ _ _ Hparse Hs) in Hcall.
      injection Hcall as <- _ <-. right. left. exists p. by split_and!.
  - rewrite (CallTool_naming_error _ _ _ _ _ Hparse) in Hcall.
    injection Hcall as <- _ <-.
    apply parseToolName_Err in Hparse as [-> _]. left. by split_and!.
Qed.
End MoreRegistry.

Section Ledger.
Context `{Externals}.
Import mcp.

(** One step of the loop of [NewClient], with its trace. *)
Lemma connectAll_cons c name server rest w :
  exists r w1,
    connectAll c ((name, server) :: rest) w
    = (let '(c', w', tr) := connectAll (connected c name r) rest w1 in
       (c', w',
        EvConnect name r
          :: match r with
             | Ok _ => tr
             | Err e => Stderr (failureReport name e) :: tr
             end)).
Proof.
  destruct (connectToServer_spec c name server w) as (r & w1 & Hc).
  exists r, w1. simpl. rewrite (bind_eq _ _ _ _ _ _ Hc).
  destruct r as [s|e]; unfold bind, ret, eprint, emit; simpl;
    by destruct (connectAll _ rest w1) as [[c' w'] tr].
Qed.

(** What the registry holds, what was written to the error stream and who
    was tried, read off the trace of the loop. *)
Lemma connectAll_ledger entries : forall c w,
  NoDup entries.*1 ->
  (forall name, name ∈ entries.*1 -> sessions c !! name = None) ->
  map_to_list (sessions (connectAll c entries w).1.1)
    ≡ₚ connectedPairs (connectAll c entries w).2 ++ map_to_list (sessions c)
  /\ stderrLines (connectAll c entries w).2
     = (fun ne => failureReport ne.1 ne.2) <$> failedConnects (connectAll c entries w).2
  /\ (connectedPairs (connectAll c entries w).2).*1
       ++ (failedConnects (connectAll c entries w).2).*1 ≡ₚ entries.*1.
Proof.
  induction entries as [|[name server] rest IH]; intros c w Hnd Hfresh; [done|].
  apply NoDup_cons in Hnd as [Hname Hnd].
  destruct (connectAll_cons c name server rest w) as (r & w1 & ->).
  assert (Hfresh1 : forall n, n ∈ rest.*1 -> sessions (connected c name r) !! n = None).
  { intros n Hn. destruct r as [s|e]; simpl.
    - rewrite lookup_insert_ne by (intros ->; done). apply Hfresh. by right.
    - apply Hfresh. by right. }
  destruct (IH (connected c name r) w1 Hnd Hfresh1) as (Hmap & Herr & Hall).
  destruct (connectAll (connected c name r) rest w1) as [[c' w'] tr].
  csimpl in *. destruct r as [s|e]; csimpl in *.
  - split_and!; [|done|by f_equiv].
    rewrite Hmap, map_to_list_insert by (apply Hfresh; by left).
    by rewrite Permutation_middle.
  - split_and!; [done | by f_equal|].
    rewrite <- Hall. by rewrite Permutation_middle.
Qed.


End Ledger.

(** ** The catalog *)

Section Catalogue.
Context `{Externals}.
Import mcp.



End Catalogue.

(** ** More on the orchestrator *)

Section MoreOrchestrator.
Context `{Externals}.
Import agent.




(** X10: what the router returns on success is never text or bytes, so the
    text stored for it is the JSON document of the provider's result or,
    when that cannot be serialized, its default rendering. *)
Theorem routed_results_are_serialized c name args w v w' tr :
  mcp.CallTool c name args w = (Ok v, w', tr) ->
  exists d, v = any_other d
            /\ formatToolResult v
               = match json_MarshalIndent d with
                 | Ok document => document
                 | Err _ => fmt_Sprint d
                 end.
Proof.
  intros Hcall.
  destruct (parseToolName name) as [[p t]|e] eqn:Hparse;
    [|by rewrite (CallTool_naming_error _ _ _ _ _ Hparse) in Hcall].
  destruct (mcp.sessions c !! p) as [s|] eqn:Hs;
    [|by rewrite (CallTool_unknown_provider _ _ _ _ _ _ Hparse Hs) in Hcall].
  rewrite (CallTool_forward _ _ _ _ _ _ _ Hparse Hs) in Hcall.
  destruct (session_CallTool s t args w) as [[d|e] w1]; simpl in Hcall; [|done].
  injection Hcall as <- _ _. exists d. split; [done|].
  simpl. by destruct (json_MarshalIndent d).
Qed.

(** X11: without a registered provider no tool call reaches a session: each
    call is answered by a tool message that starts with ["Error: "], and
    the world is left as it was. *)
Theorem no_providers_only_errors a calls :
  mcp.sessions (mcpClient a) = ∅ ->
  forall conversation w,
    exists results tr,
      foldM (callOne a) conversation calls w = (conversation ++ results, w, tr)
      /\ Forall2 answers calls results
      /\ Forall (fun m => Strings.HasPrefix (api.Content m) "Error: " = true) results
      /\ Forall (fun ev => match ev with EvCallTool _ _ _ => False | _ => True end) tr.
Proof.
  intros Hempty. induction calls as [|toolCall calls IH]; intros conversation w.
  - exists [], []. simpl. by rewrite app_nil_r.
  - assert (exists e, mcp.CallTool (mcpClient a) (api.Name (api.Function toolCall))
                        (api.Arguments (api.Function toolCall)) w = (Err e, w, []))
      as [e Hcall].
    { destruct (parseToolName (api.Name (api.Function toolCall)))
        as [[p t]|e] eqn:Hparse.
      - eexists. apply CallTool_unknown_provider with (toolName := t); [done|].
        by rewrite Hempty, lookup_empty.
      - exists e. by apply CallTool_naming_error. }
    change (foldM (callOne a) conversation (toolCall :: calls))
      with (bind (callOne a conversation toolCall)
              (fun c => foldM (callOne a) c calls)).
    unfold bind. rewrite callOne_spec, Hcall.
    destruct (IH (conversation
                    ++ [toolMessage (api.Name (api.Function toolCall))
                          (storedText (Err e))]) w)
      as (results & tr & -> & Hans & Herr & Htr).
    eexists (_ :: results), _. split_and!.
    + by rewrite <- app_assoc.
    + constructor; [by split | done].
    + constructor; [|done]. apply (prefix_app "Error: " e).
    + simpl. by repeat constructor.
Qed.
End MoreOrchestrator.

(** ** The streaming variant *)

Section Streaming.
Context `{Externals}.
Import agent.






(** X13: for a stream that ends with a response flagged complete, the
    streaming variant returns that response's role, the text of the whole
    stream, and that response's tool calls followed by themselves. *)
Theorem streaming_returns_final_response a conversation tools w before final w' :
  ollama_Chat {| api.Model := model a; api.Stream := true;
                 api.Messages := conversation; api.Tools := tools |} w
    = ((before ++ [final], None), w') ->
  api.Done final = true ->
  (runInferenceStreaming a conversation tools w).1
  = (Ok {| api.Role := api.Role (api.resp_Message final);
           api.Content := streamedText (before ++ [final]);
           api.ToolCalls := api.ToolCalls (api.resp_Message final)
                            ++ api.ToolCalls (api.resp_Message final);
           api.ToolName := api.ToolName (api.resp_Message final) |}, w').
Proof.
  intros Hchat Hd.
  destruct (runInferenceStreaming_done _ _ _ _ _ _ _ Hchat Hd) as [tr ->]. done.
Qed.

Lemma respFunc_pending fm cb resp w :
  api.Done resp = false ->
  (respFunc (fm, cb) resp w).1.1.1
  = {| api.Role := api.Role fm; api.Content := api.Content fm;
       api.ToolCalls := api.ToolCalls fm ++ api.ToolCalls (api.resp_Message resp);
       api.ToolName := api.ToolName fm |}.
Proof.
  intros Hd. unfold respFunc, bind, print, emit, ret. rewrite Hd.
  destruct (negb _); simpl;
    destruct (api.ToolCalls (api.resp_Message resp)) eqn:Htc; simpl;
    unfold withToolCalls; destruct fm; simpl; by rewrite ?app_nil_r.
Qed.

Lemma foldM_respFunc_pending resps : forall fm cb w,
  Forall (fun resp => api.Done resp = false) resps ->
  (foldM respFunc (fm, cb) resps w).1.1.1
  = {| api.Role := api.Role fm; api.Content := api.Content fm;
       api.ToolCalls := api.ToolCalls fm ++ streamedCalls resps;
       api.ToolName := api.ToolName fm |}.
Proof.
  induction resps as [|resp resps IH]; intros fm cb w Hall.
  - simpl. destruct fm. simpl. by rewrite app_nil_r.
  - apply Forall_cons in Hall as [Hd Hall].
    change (foldM respFunc (fm, cb) (resp :: resps))
      with (bind (respFunc (fm, cb) resp) (fun c => foldM respFunc c resps)).
    unfold bind. pose proof (respFunc_pending fm cb resp w Hd) as Hstep.
    destruct (respFunc (fm, cb) resp w) as [[[fm1 cb1] w1] t1]. simpl in Hstep.
    specialize (IH fm1 cb1 w1 Hall).
    destruct (foldM respFunc (fm1, cb1) resps w1) as [[[fm2 cb2] w2] t2].
    simpl in *. subst fm2 fm1. simpl. unfold streamedCalls. simpl.
    by rewrite app_assoc.
Qed.

(** X14: when no response of the stream is flagged complete, the message
    returned has no role and no text, although the text was printed, and
    carries the tool calls of the whole stream, each once. *)
Theorem streaming_without_completion a conversation tools w resps w' :
  ollama_Chat {| api.Model := model a; api.Stream := true;
                 api.Messages := conversation; api.Tools := tools |} w
    = ((resps, None), w') ->
  Forall (fun resp => api.Done resp = false) resps ->
  (runInferenceStreaming a conversation tools w).1
  = (Ok {| api.Role := ""; api.Content := "";
           api.ToolCalls := streamedCalls resps; api.ToolName := "" |}, w').
Proof.
  intros Hchat Hall. unfold runInferenceStreaming, bind, Chat. rewrite Hchat.
  pose proof (foldM_respFunc_pending resps api.zeroMessage EmptyString w' Hall) as Hf.
  destruct (foldM_respFunc_world resps (api.zeroMessage, EmptyString) w')
    as ([fm cb] & t1 & Hw).
  rewrite Hw in Hf |- *. simpl in *. by subst fm.
Qed.

(** X15: on an exchange of a single complete response that carries no
    tool call, the streaming and the blocking variant return the same
    message, the one that was sent. *)
Theorem variants_agree_on_plain_reply a conversation tools w final w1 w2 :
  ollama_Chat {| api.Model := model a; api.Stream := true;
                 api.Messages := conversation; api.Tools := tools |} w
    = (([final], None), w1) ->
  ollama_Chat {| api.Model := model a; api.Messages := conversation;
                 api.Tools := tools; api.Stream := false |} w
    = (([final], None), w2) ->
  api.Done final = true ->
  api.ToolCalls (api.resp_Message final) = [] ->
  (runInferenceStreaming a conversation tools w).1.1 = Ok (api.resp_Message final)
  /\ (runInference a conversation tools w).1.1 = Ok (api.resp_Message final).
Proof.
  intros Hs Hb Hd Hcalls. split.
  - destruct (runInferenceStreaming_done a conversation tools w [] final w1 Hs Hd)
      as [tr ->].
    simpl. unfold streamedMessage. rewrite Hcalls. simpl.
    rewrite streamedText_one. destruct (api.resp_Message final). simpl in *.
    by subst.
  - rewrite runInference_spec. simpl. by rewrite Hb.
Qed.
End Streaming.

(** ** What the loops leave in the trace *)

Section LoopTraces.
Context `{Externals}.
Import agent.







End LoopTraces.

(** ** The program: sessions from start to exit *)

Section Lifecycle.
Context `{Externals}.
Import agent.

Lemma no_lifecycle tr :
  Forall (fun ev => ~ lifecycleEvent ev) tr ->
  connectedPairs tr = [] /\ closedSessions tr = [].
Proof.
  induction 1 as [|ev tr Hev _ [IH1 IH2]]; [done|].
  destruct ev as [| |n [s|e]| | |s r| |]; try (by destruct Hev);
    unfold connectedPairs, closedSessions in *; csimpl; by rewrite ?IH1, ?IH2.
Qed.

Lemma connectedPairs_app t1 t2 :
  connectedPairs (t1 ++ t2) = connectedPairs t1 ++ connectedPairs t2.
Proof. apply omap_app. Qed.

Lemma closedSessions_app t1 t2 :
  closedSessions (t1 ++ t2) = closedSessions t1 ++ closedSessions t2.
Proof. apply omap_app. Qed.



Lemma connectAll_closes_nothing entries : forall c w,
  closedSessions (mcp.connectAll c entries w).2 = [].
Proof.
  induction entries as [|[name server] rest IH]; intros c w; [done|].
  destruct (connectAll_cons c name server rest w) as (r & w1 & ->).
  specialize (IH (connected c name r) w1).
  destruct (mcp.connectAll (connected c name r) rest w1) as [[c' w'] tr].
  simpl in *. by destruct r.
Qed.

End Lifecycle.

Section ProgramFacts.
Context `{Startup}.
Import program.

Lemma NewClient_eq config w :
  mcp.NewClient config w
  = (Ok (mcp.connectAll {| mcp.sessions := ∅ |}
           (map_to_list (mcp.MCPServers config)) w).1.1,
     (mcp.connectAll {| mcp.sessions := ∅ |}
        (map_to_list (mcp.MCPServers config)) w).1.2,
     (mcp.connectAll {| mcp.sessions := ∅ |}
        (map_to_list (mcp.MCPServers config)) w).2).
Proof.
  unfold mcp.NewClient, bind, ret.
  destruct (mcp.connectAll _ _ w) as [[c w1] t1]. simpl. by rewrite app_nil_r.
Qed.


Lemma chooseConfig_eq flags w :
  chooseConfig flags w = ((chooseConfig flags w).1.1, w, []).
Proof.
  unfold chooseConfig. destruct (String.eqb _ _); [|done].
  by destruct (os_Stat_ok _ w).
Qed.

Lemma LoadConfig_trace path w : (LoadConfig path w).2 = [].
Proof.
  unfold LoadConfig. destruct (os_ReadFile path w) as [[data|err] w1]; [|done].
  by destruct (json_Unmarshal_config data).
Qed.

Lemma logVerbose_eq flags line message w :
  logVerbose flags line message w = (tt, w, diagnostic flags w line message).
Proof. unfold logVerbose, diagnostic, logOutput. by destruct (verbose flags). Qed.

Lemma Fatalf_eq flags line message w :
  Fatalf flags line message w = (tt, w, [fatalLine flags w line message]).
Proof. reflexivity. Qed.

Lemma diagnostic_quiet flags w line message :
  Forall (fun ev => ~ lifecycleEvent ev) (diagnostic flags w line message).
Proof.
  unfold diagnostic. destruct (verbose flags); repeat constructor. by intros [].
Qed.

Lemma fatalLine_quiet flags w line message :
  ~ lifecycleEvent (fatalLine flags w line message).
Proof. unfold fatalLine. by destruct (verbose flags); intros []. Qed.

Ltac main_to_config Hload :=
  unfold main; unfold bind at 1; rewrite logVerbose_eq; cbv beta iota;
  unfold bind at 1; rewrite chooseConfig_eq; cbv beta iota;
  unfold bind at 1; rewrite logVerbose_eq; cbv beta iota;
  unfold bind at 1;
  let Ht := fresh "Ht" in
  let loaded := fresh "loaded" in
  let w0 := fresh "w0" in
  let t0 := fresh "t0" in
  match type of Hload with
  | (LoadConfig ?path ?w).1 = _ =>
      pose proof (LoadConfig_trace path w) as Ht;
      destruct (LoadConfig path w) as [[loaded w0] t0];
      simpl in Ht, Hload; subst t0; injection Hload as -> ->
  end.

Lemma startupDiagnostics_eq flags w :
  diagnostic flags w 28 ("Verbose logging enabled" +:+ LF)
  ++ diagnostic flags w 51 ("Loading MCP config from: " +:+ (chooseConfig flags w).1.1)
  = startupDiagnostics flags w.
Proof. unfold startupDiagnostics, diagnostic. by destruct (verbose flags). Qed.

(** [main] when the configuration cannot be loaded. *)
Lemma main_config_error fuel flags w err w1 :
  (LoadConfig (chooseConfig flags w).1.1 w).1 = (Err err, w1) ->
  main fuel flags w
  = (Some 1, w1,
     startupDiagnostics flags w
     ++ [fatalLine flags w1 55 ("Failed to load MCP config: " +:+ err)]).
Proof.
  intros Hload. main_to_config Hload.
  unfold bind, ret. rewrite Fatalf_eq. cbv beta iota.
  by rewrite <- startupDiagnostics_eq, ?app_nil_l, ?app_nil_r, <- ?app_assoc.
Qed.

(** [main] once the configuration is loaded. *)
Lemma main_configured fuel flags w config w1 :
  (LoadConfig (chooseConfig flags w).1.1 w).1 = (Ok config, w1) ->
  main fuel flags w
  = (let '(c, w2, t2) :=
       mcp.connectAll {| mcp.sessions := ∅ |}
         (map_to_list (mcp.MCPServers config)) w1 in
     let '(err, w3) := api_ClientFromEnvironment w2 in
     match err with
     | Some err =>
         (Some 1, w3,
          startupDiagnostics flags w ++ t2
          ++ diagnostic flags w2 67 ("MCP client initialized" +:+ LF)
          ++ [fatalLine flags w3 73
                ("Failed to initialize Ollama client: " +:+ err)])
     | None =>
         let '(outcome, w4, t4) :=
           agent.Run fuel (NewAgent c (model flags) (verbose flags)
                             (stream flags)) w3 in
         match outcome with
         | None =>
             (None, w4,
              startupDiagnostics flags w ++ t2
              ++ diagnostic flags w2 67 ("MCP client initialized" +:+ LF)
              ++ diagnostic flags w3 76 ("Ollama client initialized" +:+ LF)
              ++ t4)
         | Some (_, err) =>
             let '(_, w5, t5) := mcp.Close c w4 in
             (Some 0, w5,
              startupDiagnostics flags w ++ t2
              ++ diagnostic flags w2 67 ("MCP client initialized" +:+ LF)
              ++ diagnostic flags w3 76 ("Ollama client initialized" +:+ LF)
              ++ t4
              ++ match err with
                 | Some e => [Stdout ("Error: " +:+ e +:+ LF)]
                 | None => []
                 end
              ++ t5)
         end
     end).
Proof.
  intros Hload. rewrite <- startupDiagnostics_eq. main_to_config Hload.
  unfold bind at 1. rewrite NewClient_eq.
  destruct (mcp.connectAll _ _ w1) as [[c w2] t2]. cbn [fst snd].
  unfold bind at 1. rewrite logVerbose_eq. cbv beta iota.
  unfold bind at 1. unfold ClientFromEnvironment.
  destruct (api_ClientFromEnvironment w2) as [[err|] w3].
  - unfold bind, ret. rewrite Fatalf_eq. cbv beta iota.
    by rewrite ?app_nil_l, ?app_nil_r, <- ?app_assoc.
  - unfold bind at 1. rewrite logVerbose_eq. cbv beta iota.
    unfold bind at 1.
    destruct (agent.Run fuel _ w3) as [[[[conversation err]|] w4] t4].
    + unfold bind, ret, print, emit.
      destruct err; cbv beta iota;
        destruct (mcp.Close c w4) as [[cerr w5] t5]; cbv beta iota;
        by rewrite ?app_nil_l, ?app_nil_r, <- ?app_assoc.
    + unfold ret. by rewrite ?app_nil_l, ?app_nil_r, <- ?app_assoc.
Qed.

Lemma startupDiagnostics_quiet flags w :
  Forall (fun ev => ~ lifecycleEvent ev) (startupDiagnostics flags w).
Proof.
  unfold startupDiagnostics. destruct (verbose flags); repeat constructor;
    by intros [].
Qed.

Lemma fatalLine_traces flags w line message :
  connectedPairs [fatalLine flags w line message] = []
  /\ closedSessions [fatalLine flags w line message] = [].
Proof. unfold fatalLine. by destruct (verbose flags). Qed.

(** X17: when the configuration cannot be loaded, [main] ends with status
    1 and all it has done is to write: no provider is contacted, no model
    is asked and the user is never prompted.  Its last line is the one of
    the error; without [-verbose] that line, on the standard output, is
    its only output. *)
Theorem main_stops_without_config fuel flags w e w1 :
  (LoadConfig (chooseConfig flags w).1.1 w).1 = (Err e, w1) ->
  exists tr,
    main fuel flags w = (Some 1, w1, tr)
    /\ Forall (fun ev => exists text, ev = Stdout text \/ ev = Stderr text) tr
    /\ last tr = Some (fatalLine flags w1 55 ("Failed to load MCP config: " +:+ e))
    /\ (verbose flags = false ->
        tr = [Stdout (logLine ("Failed to load MCP config: " +:+ e))]).
Proof.
  intros Hload. eexists. split; [by apply main_config_error|].
  split_and!.
  - apply Forall_app. split.
    + unfold startupDiagnostics. destruct (verbose flags); repeat constructor;
        eexists; by right.
    + unfold fatalLine. destruct (verbose flags); repeat constructor;
        eexists; [by right | by left].
  - by rewrite last_snoc.
  - intros Hv. unfold startupDiagnostics, fatalLine. by rewrite Hv.
Qed.

End ProgramFacts.

(** ** Where the messages of a conversation come from *)

Section Provenance.
Context `{Externals}.
Import agent.

Lemma foldM_callOne_produced a tools calls conversation w :
  exists results,
    (foldM (callOne a) conversation calls w).1.1 = conversation ++ results
    /\ Forall (produced a tools) results.
Proof.
  revert conversation w. induction calls as [|toolCall calls IH];
    intros conversation w.
  - exists []. simpl. by rewrite app_nil_r.
  - change (foldM (callOne a) conversation (toolCall :: calls))
      with (bind (callOne a conversation toolCall)
              (fun c => foldM (callOne a) c calls)).
    unfold bind. rewrite callOne_spec.
    destruct (mcp.CallTool _ _ _ w) as [[r w1] t1].
    destruct (IH (conversation ++ [toolMessage (api.Name (api.Function toolCall))
                                     (storedText r)]) w1)
      as (results & Hres & Hall).
    destruct (foldM (callOne a) _ calls w1) as [[c2 w2] t2]. simpl in *.
    eexists (_ :: results). split; [by rewrite Hres, <- app_assoc|].
    constructor; [|done]. right. left. by eexists _, _.
Qed.

Lemma toolRounds_produced a tools fuel :
  forall conversation message w conversation' e w' tr,
    toolRounds fuel a tools conversation message w
      = (Some (conversation', e), w', tr) ->
    exists added,
      conversation' = conversation ++ added /\ Forall (produced a tools) added.
Proof.
  induction fuel as [|fuel IH];
    intros conversation message w conversation' e w' tr Hrun; [done|].
  destruct (api.ToolCalls message) as [|c0 cs] eqn:Hcalls.
  - rewrite toolRounds_no_calls in Hrun by done. injection Hrun as <- _ _ _.
    exists []. by rewrite app_nil_r.
  - destruct (foldM_callOne_produced a tools (api.ToolCalls message) conversation w)
      as (results & Hres & Hall).
    destruct (foldM (callOne a) conversation (api.ToolCalls message) w)
      as [[conversation1 w1] t1] eqn:Hfold. simpl in Hres. subst conversation1.
    destruct (runInference a (conversation ++ results) tools w1)
      as [[r w2] t2] eqn:Hinfer.
    rewrite (toolRounds_calls _ _ _ _ _ _ _ _ _ _ _ _
               ltac:(by rewrite Hcalls) Hfold Hinfer) in Hrun.
    destruct r as [message1|err].
    + destruct (toolRounds fuel a tools _ message1 w2) as [[o w3] t3] eqn:Hnext.
      injection Hrun as -> -> _.
      destruct (IH _ _ _ _ _ _ _ Hnext) as (added & -> & Hadded).
      exists (results ++ message1 :: added). split; [by rewrite <- !app_assoc|].
      apply Forall_app. split; [done|]. constructor; [|done].
      right. right. exists (conversation ++ results), w1. right. by rewrite Hinfer.
    + injection Hrun as <- _ _ _. by exists results.
Qed.

(** X19: the loop of [Run] never drops or changes a message it holds; what
    it adds are non-empty lines of the user, answers to tool calls and
    replies of the model, and nothing else. *)
Theorem conversation_only_grows a tools fuel :
  forall conversation w conversation' e w' tr,
    chatLoop fuel a tools conversation w = (Some (conversation', e), w', tr) ->
    exists added,
      conversation' = conversation ++ added /\ Forall (produced a tools) added.
Proof.
  induction fuel as [|fuel IH];
    intros conversation w conversation' e w' tr Hrun; [done|].
  destruct (survey_AskOne w) as [[userInput|err] w1] eqn:Hask.
  - destruct (String.eqb_spec userInput "") as [->|Hne].
    + rewrite (chatLoop_empty_input _ _ _ _ _ _ Hask) in Hrun.
      destruct (chatLoop fuel a tools conversation w1) as [[o w2] t] eqn:Hnext.
      injection Hrun as -> -> _. by eapply IH.
    + assert (Huser : produced a tools (userMessage userInput)).
      { left. by exists userInput. }
      destruct (firstInference a (conversation ++ [userMessage userInput]) tools w1)
        as [[r w2] t2] eqn:Hinfer.
      rewrite (chatLoop_turn _ _ _ _ _ _ _ _ _ _ Hask Hne Hinfer) in Hrun.
      destruct r as [message|err].
      2:{ injection Hrun as <- _ _ _. exists [userMessage userInput].
          split; [done | by constructor]. }
      assert (Hreply : produced a tools message).
      { right. right. exists (conversation ++ [userMessage userInput]), w1.
        left. by rewrite Hinfer. }
      destruct (toolRounds fuel a tools _ message w2) as [[t w3] t3] eqn:Hturn.
      destruct t as [[c [err|]]|]; [| |done].
      * injection Hrun as <- _ _ _.
        destruct (toolRounds_produced _ _ _ _ _ _ _ _ _ _ Hturn)
          as (added & -> & Hadded).
        exists (userMessage userInput :: message :: added).
        split; [by rewrite <- !app_assoc|].
        constructor; [done|]. by constructor.
      * destruct (chatLoop fuel a tools c w3) as [[o w4] t4] eqn:Hnext.
        injection Hrun as -> -> _.
        destruct (toolRounds_produced _ _ _ _ _ _ _ _ _ _ Hturn)
          as (added & -> & Hadded).
        destruct (IH _ _ _ _ _ _ Hnext) as (added' & -> & Hadded').
        exists (userMessage userInput :: message :: added ++ added').
        split; [by rewrite <- !app_assoc|].
        constructor; [done|]. constructor; [done|]. by apply Forall_app.
  - rewrite (chatLoop_input_ended _ _ _ _ _ _ _ Hask) in Hrun.
    injection Hrun as <- _ _ _. exists []. by rewrite app_nil_r.
Qed.


End Provenance.

Section ProgramLeak.
Context `{Startup}.
Import program.

(** X21: when the model client cannot be set up, [main] exits with status
    1 right after the registry was built: its last line is the one of the
    error, the sessions that were connected are in the registry, and none
    of them is closed. *)
Theorem main_exits_with_sessions_open fuel flags w config w1 c w2 tr2 err w3 :
  (LoadConfig (chooseConfig flags w).1.1 w).1 = (Ok config, w1) ->
  mcp.NewClient config w1 = (Ok c, w2, tr2) ->
  api_ClientFromEnvironment w2 = (Some err, w3) ->
  exists tr,
    main fuel flags w = (Some 1, w3, tr)
    /\ last tr = Some (fatalLine flags w3 73
                         ("Failed to initialize Ollama client: " +:+ err))
    /\ closedSessions tr = []
    /\ map_to_list (mcp.sessions c) ≡ₚ connectedPairs tr.
Proof.
  intros Hload Hnew Henv.
  rewrite NewClient_eq in Hnew.
  pose proof (connectAll_closes_nothing (map_to_list (mcp.MCPServers config))
                {| mcp.sessions := ∅ |} w1) as Hnone.
  destruct (connectAll_ledger (map_to_list (mcp.MCPServers config))
              {| mcp.sessions := ∅ |} w1 (NoDup_fst_map_to_list _)
              ltac:(intros; apply lookup_empty)) as (Hmap & _ & _).
  rewrite (main_configured fuel flags w config w1 Hload).
  destruct (mcp.connectAll _ _ w1) as [[c0 w0] t0]. simpl in Hnew, Hnone, Hmap.
  injection Hnew as -> -> ->. rewrite Henv.
  rewrite map_to_list_empty, app_nil_r in Hmap.
  destruct (no_lifecycle _ (startupDiagnostics_quiet flags w)) as [Hs1 Hs2].
  destruct (no_lifecycle _ (diagnostic_quiet flags w2 67
                              ("MCP client initialized" +:+ LF))) as [Ha1 Ha2].
  destruct (fatalLine_traces flags w3 73
              ("Failed to initialize Ollama client: " +:+ err)) as [Hf1 Hf2].
  eexists. split; [reflexivity|]. split_and!.
  - by rewrite !app_assoc, last_snoc.
  - by rewrite !closedSessions_app, Hs2, Hnone, Ha2, Hf2.
  - rewrite !connectedPairs_app, Hs1, Ha1, Hf1. simpl.
    by rewrite app_nil_r.
Qed.
End ProgramLeak.

(** ** The program on the scripted world, continued *)

Section MoreOnTheScriptedWorld.
Import Scripted ScriptedProgram agent.
#[local] Existing Instance data.
#[local] Existing Instance externals.
#[local] Existing Instance startup.

Lemma CallTool_error_kinds_witness :
  let e := "invalid tool name format: readfile" in
  (e = "invalid tool name format: " +:+ "readfile" /\ @nil Event = []
   /\ Strings.HasPrefix e "i" = true)
  \/ (exists p, e = "server " +:+ p +:+ " not found" /\ @nil Event = []
                /\ Strings.HasPrefix e "s" = true)
  \/ (exists s t e0, e = "failed to call tool: " +:+ e0
                     /\ @nil Event = [EvCallTool s t "a.txt"]
                     /\ (session_CallTool s t "a.txt" (script [] [])).1 = Err e0
                     /\ Strings.HasPrefix e "f" = true).
Proof.
  exact (CallTool_error_kinds client "readfile" "a.txt" (script [] []) _ _ _ eq_refl).
Defined.




Lemma routed_results_are_serialized_witness :
  exists d, any_other "contents of a.txt" = any_other d
            /\ formatToolResult (any_other "contents of a.txt")
               = match json_MarshalIndent d with
                 | Ok document => document
                 | Err _ => fmt_Sprint d
                 end.
Proof.
  exact (routed_results_are_serialized client "fs__read_file" "a.txt" (script [] [])
           _ _ _ eq_refl).
Defined.

Lemma no_providers_only_errors_witness :
  exists results tr,
    foldM (callOne loneAssistant) [] [readCall; ghostCall] (script [] [])
    = ([] ++ results, script [] [], tr)
    /\ Forall2 answers [readCall; ghostCall] results
    /\ Forall (fun m => Strings.HasPrefix (api.Content m) "Error: " = true) results
    /\ Forall (fun ev => match ev with EvCallTool _ _ _ => False | _ => True end) tr.
Proof.
  exact (no_providers_only_errors loneAssistant [readCall; ghostCall] eq_refl
           [] (script [] [])).
Defined.

Lemma streaming_returns_final_response_witness :
  (runInferenceStreaming streamingAssistant [] []
     (script [] [([pending "Let me " "fs__read_file" "a.txt"; say "look."], None)])).1
  = (Ok {| api.Role := "assistant"; api.Content := "Let me look.";
           api.ToolCalls := []; api.ToolName := "" |}, script [] []).
Proof.
  exact (streaming_returns_final_response streamingAssistant [] []
           (script [] [([pending "Let me " "fs__read_file" "a.txt"; say "look."], None)])
           [response (pending "Let me " "fs__read_file" "a.txt")]
           (response (say "look.")) (script [] []) eq_refl eq_refl).
Defined.

Lemma variants_agree_on_plain_reply_witness :
  (runInferenceStreaming assistant [] [] (script [] [([say "Hello."], None)])).1.1
  = Ok (api.resp_Message (response (say "Hello.")))
  /\ (runInference assistant [] [] (script [] [([say "Hello."], None)])).1.1
     = Ok (api.resp_Message (response (say "Hello."))).
Proof.
  exact (variants_agree_on_plain_reply assistant [] []
           (script [] [([say "Hello."], None)]) (response (say "Hello."))
           (script [] []) (script [] []) eq_refl eq_refl eq_refl eq_refl).
Defined.


Lemma conversation_only_grows_witness :
  exists added,
    [userMessage "earlier"; userMessage "hi"; lastReply]
    = [userMessage "earlier"] ++ added
    /\ Forall (produced assistant []) added.
Proof.
  exact (conversation_only_grows assistant [] 2 [userMessage "earlier"]
           (script ["hi"] [([say "It says hello."], None)])
           _ _ _ _ eq_refl).
Defined.


Lemma main_stops_without_config_witness :
  exists tr,
    program.main 2 flagsElsewhere (script [] []) = (Some 1, script [] [], tr)
    /\ Forall (fun ev => exists text, ev = Stdout text \/ ev = Stderr text) tr
    /\ last tr
       = Some (fatalLine flagsElsewhere (script [] []) 55
                 ("Failed to load MCP config: "
                  +:+ "failed to read config file: "
                  +:+ "open nowhere.json: no such file or directory"))
    /\ (program.verbose flagsElsewhere = false ->
        tr = [Stdout (program.logLine
                        ("Failed to load MCP config: "
                         +:+ "failed to read config file: "
                         +:+ "open nowhere.json: no such file or directory"))]).
Proof.
  exact (@main_stops_without_config data externals startup 2 flagsElsewhere
           (script [] []) _ (script [] []) eq_refl).
Defined.


Lemma main_exits_with_sessions_open_witness :
  exists tr,
    program.main 3 flags (script ["hi"] []) = (Some 1, script ["hi"] [], tr)
    /\ last tr
       = Some (fatalLine flags (script ["hi"] []) 73
                 ("Failed to initialize Ollama client: " +:+ "invalid OLLAMA_HOST"))
    /\ closedSessions tr = []
    /\ map_to_list (mcp.sessions client) ≡ₚ connectedPairs tr.
Proof.
  exact (@main_exits_with_sessions_open data externals startup 3 flags
           (script ["hi"] []) config (script ["hi"] []) client (script ["hi"] [])
           _ "invalid OLLAMA_HOST" (script ["hi"] []) eq_refl eq_refl eq_refl).
Defined.
End MoreOnTheScriptedWorld.

Section OnTheRawWorld.
Import Scripted ScriptedProgram agent.
#[local] Existing Instance data.
#[local] Existing Instance rawExternals.

Lemma streaming_without_completion_witness :
  (runInferenceStreaming
     {| agent.mcpClient := client; agent.model := "qwen3:1.7b";
        agent.verbose := false; agent.stream := true |} [] []
     (script [] [([pending "Let me look" "fs__read_file" "a.txt"], None)])).1
  = (Ok {| api.Role := ""; api.Content := "";
           api.ToolCalls := [readCall]; api.ToolName := "" |}, script [] []).
Proof.
  exact (streaming_without_completion _ [] []
           (script [] [([pending "Let me look" "fs__read_file" "a.txt"], None)])
           [response (pending "Let me look" "fs__read_file" "a.txt")]
           (script [] []) eq_refl (@List.Forall_cons _ (fun resp => api.Done resp = false)
              (response (pending "Let me look" "fs__read_file" "a.txt")) []
              eq_refl (@List.Forall_nil _ _))).
Defined.
End OnTheRawWorld.

(** ** Trimming and splitting ASCII text *)

Section Text.
Context `{Unicode}.
Import Strings Space.

Lemma anyByte_app p a b : anyByte p (a +:+ b) = anyByte p a || anyByte p b.
Proof.
  induction a as [|c a IH]; [done|]. rewrite append_cons. simpl.
  by rewrite IH, orb_assoc.
Qed.

Lemma isASCII_app a b : isASCII (a +:+ b) <-> isASCII a /\ isASCII b.
Proof. unfold isASCII. rewrite anyByte_app. apply orb_false_iff. Qed.

Lemma blank_app a b : blank (a +:+ b) = blank a && blank b.
Proof. unfold blank. by rewrite anyByte_app, negb_orb. Qed.

Lemma reverse_app a b : reverse (a +:+ b) = reverse b +:+ reverse a.
Proof.
  induction a as [|c a IH]; [by rewrite append_nil, append_empty|].
  rewrite append_cons. simpl. by rewrite IH, append_assoc.
Qed.

Lemma reverse_involutive s : reverse (reverse s) = s.
Proof.
  induction s as [|c s IH]; [done|]. simpl. by rewrite reverse_app, IH.
Qed.

Lemma anyByte_reverse p s : anyByte p (reverse s) = anyByte p s.
Proof.
  induction s as [|c s IH]; [done|]. simpl.
  rewrite anyByte_app, IH. simpl. rewrite orb_false_r. apply orb_comm.
Qed.

Lemma isASCII_reverse s : isASCII (reverse s) <-> isASCII s.
Proof. unfold isASCII. by rewrite anyByte_reverse. Qed.

Lemma blank_reverse s : blank (reverse s) = blank s.
Proof. unfold blank. by rewrite anyByte_reverse. Qed.

Lemma isASCII_take n s : isASCII s -> isASCII (take n s).
Proof.
  intros Hs. rewrite <- (take_drop n s) in Hs. by apply isASCII_app in Hs as [? _].
Qed.

Lemma isASCII_drop n s : isASCII s -> isASCII (drop n s).
Proof.
  intros Hs. rewrite <- (take_drop n s) in Hs. by apply isASCII_app in Hs as [_ ?].
Qed.

Lemma split_loop_ASCII sep fuel : forall s,
  isASCII s -> Forall isASCII (split_loop fuel s sep).
Proof.
  induction fuel as [|fuel IH]; intros s Hs; simpl; [by repeat constructor|].
  destruct (Index s sep) as [m|]; [|by repeat constructor].
  constructor; [by apply isASCII_take | by apply IH, isASCII_drop].
Qed.

(** The first loop of [TrimSpace] on ASCII: it skips the spaces in front. *)
Lemma scanSpaces_ASCII s :
  isASCII s ->
  exists lead rest,
    scanSpaces s = Stopped rest /\ s = lead +:+ rest
    /\ blank lead = true /\ (rest = EmptyString \/ startsInk rest = true).
Proof.
  unfold isASCII. induction s as [|c s IH]; simpl; intros Hs.
  - exists EmptyString, EmptyString. split_and!; try done. by left.
  - apply orb_false_iff in Hs as [Hc Hs]. rewrite Hc.
    destruct (asciiSpace c) eqn:Hsp.
    + destruct (IH Hs) as (lead & rest & Hscan & -> & Hb & Hrest).
      exists (String c lead), rest. split_and!; try done.
      unfold blank in *. simpl. by rewrite Hsp.
    + exists EmptyString, (String c s). split_and!; try done.
      right. simpl. by rewrite Hsp.
Qed.

(** [TrimSpace] on ASCII: what it returns lies in the string between
    spaces, and is empty or has a byte that is no space at either end. *)
Lemma TrimSpace_ASCII s :
  isASCII s ->
  exists lead trail,
    s = lead +:+ TrimSpace s +:+ trail
    /\ blank lead = true /\ blank trail = true
    /\ (TrimSpace s = EmptyString
        \/ (startsInk (TrimSpace s) = true /\ endsInk (TrimSpace s) = true)).
Proof.
  intros Hs. unfold TrimSpace.
  destruct (scanSpaces_ASCII s Hs) as (lead & rest & -> & -> & Hlead & Hrest).
  apply isASCII_app in Hs as [_ Hs]. apply isASCII_reverse in Hs.
  destruct (scanSpaces_ASCII _ Hs) as (sp & kept & -> & Hrev & Hsp & Hkept).
  apply (f_equal reverse) in Hrev.
  rewrite reverse_involutive, reverse_app in Hrev.
  exists lead, (reverse sp). split_and!; try done.
  - by rewrite <- Hrev.
  - by rewrite blank_reverse.
  - destruct Hkept as [->|Hkept]; [by left | right].
    unfold endsInk. rewrite reverse_involutive. split; [|done].
    destruct Hrest as [->|Hrest].
    + destruct kept; [done|]. simpl in Hrev.
      by destruct (reverse sp), (reverse kept).
    + rewrite Hrev in Hrest. destruct kept as [|c kept]; [done|].
      simpl in *. by destruct (reverse kept).
Qed.

Lemma TrimSpace_isASCII s : isASCII s -> isASCII (TrimSpace s).
Proof.
  intros Hs. destruct (TrimSpace_ASCII s Hs) as (lead & trail & Heq & _).
  rewrite Heq in Hs. apply isASCII_app in Hs as [_ Hs].
  by apply isASCII_app in Hs as [Hs _].
Qed.

Lemma hasSpace_snoc field c :
  hasSpace field = false -> asciiSpace c = false ->
  hasSpace (field +:+ String c EmptyString) = false.
Proof.
  unfold hasSpace. intros Hf Hc. rewrite anyByte_app, Hf. simpl. by rewrite Hc.
Qed.

Lemma append_snoc_nonempty field c : field +:+ String c EmptyString <> EmptyString.
Proof. by destruct field. Qed.

Lemma eqb_empty s : String.eqb s "" = true <-> s = EmptyString.
Proof. by destruct s. Qed.

(** The fields of the ASCII path are not empty and hold no space. *)
Lemma fieldsLoop_fields s : forall field,
  hasSpace field = false ->
  Forall (fun f => f <> EmptyString /\ hasSpace f = false) (fieldsLoop field s).
Proof.
  induction s as [|c s IH]; intros field Hf; simpl.
  - destruct field; [constructor|]. by repeat constructor.
  - destruct (asciiSpace c) eqn:Hc.
    + destruct field; [by apply IH|]. constructor; [done | by apply IH].
    + by apply IH, hasSpace_snoc.
Qed.

(** The first field starts where the field being read starts. *)
Lemma fieldsLoop_head s : forall field name rest,
  field <> EmptyString ->
  fieldsLoop field s = name :: rest ->
  exists t, field +:+ s = name +:+ t.
Proof.
  induction s as [|c s IH]; intros field name rest Hne; simpl.
  - destruct field; [done|]. intros [= <- _]. by exists EmptyString.
  - destruct (asciiSpace c).
    + destruct field; [done|]. intros [= <- _]. by eexists.
    + intros Hloop. apply IH in Hloop as [t Ht]; [|apply append_snoc_nonempty].
      exists t. by rewrite <- Ht, append_assoc.
Qed.

Lemma Fields_head s name rest :
  isASCII s -> startsInk s = true ->
  Fields s = name :: rest ->
  name <> EmptyString /\ hasSpace name = false /\ exists t, s = name +:+ t.
Proof.
  unfold Fields, isASCII. intros -> Hink Hf.
  pose proof (fieldsLoop_fields s "" eq_refl) as Hall. rewrite Hf in Hall.
  apply Forall_cons in Hall as [[Hne Hsp] _]. split_and!; [done..|].
  destruct s as [|c s]; [done|]. simpl in Hink, Hf.
  apply negb_true_iff in Hink. rewrite Hink in Hf.
  by apply fieldsLoop_head in Hf.
Qed.

Lemma prefix_app_l a b s :
  String.prefix a b = true -> String.prefix a (b +:+ s) = true.
Proof.
  revert a; induction b as [|d b IH]; intros [|c a]; try done.
  - intros _. apply prefix_nil.
  - rewrite append_cons, !prefix_cons. destruct (ascii_dec c d); [|done].
    apply IH.
Qed.
End Text.

(** ** The launcher: the names it reads *)

Section LauncherNames.
Context `{Unicode}.
Import Strings Space launcher.

Lemma addLine_names models line :
  isASCII line -> Forall wellFormedName models -> Forall wellFormedName (addLine models line).
Proof.
  intros Hline Hmodels. unfold addLine.
  destruct (TrimSpace_ASCII line Hline) as (lead & trail & _ & _ & _ & Hink).
  pose proof (TrimSpace_isASCII line Hline) as Hascii.
  destruct (String.eqb (TrimSpace line) "") eqn:Hempty; [done|].
  destruct (HasPrefix (TrimSpace line) "NAME") eqn:Hheader; [done|].
  destruct (Contains (TrimSpace line) "----") eqn:Hrule; [done|]. simpl.
  destruct (Fields (TrimSpace line)) as [|name rest] eqn:Hfields; [done|].
  destruct (String.eqb_spec name "Name") as [|Hname]; [done|].
  destruct (Contains name "----") eqn:Hdash; [done|]. simpl.
  apply Forall_app. split; [done|]. constructor; [|constructor].
  destruct Hink as [Hnil|[Hink _]]; [by rewrite Hnil in Hempty|].
  destruct (Fields_head _ _ _ Hascii Hink Hfields) as (Hne & Hsp & t & Ht).
  split_and!; try done.
  destruct (HasPrefix name "NAME") eqn:Hp; [|done].
  unfold HasPrefix in *. by rewrite Ht, prefix_app_l in Hheader.
Qed.

Lemma foldl_addLine_names lines : forall models,
  Forall isASCII lines -> Forall wellFormedName models ->
  Forall wellFormedName (foldl addLine models lines).
Proof.
  induction lines as [|line lines IH]; intros models Hlines Hmodels; [done|].
  apply Forall_cons in Hlines as [Hline Hlines]. simpl.
  by apply IH, addLine_names.
Qed.

(** X22: whatever ASCII text [ollama list] prints, every name that
    [parseOllamaListOutput] returns is a non-empty word without space that
    does not start with "NAME", is not "Name" and holds no "----". *)
Theorem parseOllamaListOutput_names output :
  isASCII output -> Forall wellFormedName (parseOllamaListOutput output).
Proof.
  intros Hout. unfold parseOllamaListOutput.
  apply foldl_addLine_names; [|constructor].
  apply split_loop_ASCII. by apply TrimSpace_isASCII.
Qed.
End LauncherNames.

(** ** The launcher: a text seen line by line *)

Section Table.
Context `{Unicode}.
Import Strings Space launcher.

Lemma asciiSpace_ASCII c : asciiSpace c = true -> RuneSelf c = false.
Proof.
  unfold asciiSpace, RuneSelf. intros Hc.
  repeat (apply orb_true_iff in Hc as [Hc|Hc]);
    apply Nat.eqb_eq in Hc; by rewrite Hc.
Qed.

Lemma scanSpaces_blank_app lead s :
  blank lead = true -> scanSpaces (lead +:+ s) = scanSpaces s.
Proof.
  unfold blank. induction lead as [|c lead IH]; [done|]. simpl.
  rewrite negb_orb, negb_involutive. intros [Hc Hl]%andb_true_iff.
  by rewrite (asciiSpace_ASCII c Hc), Hc, IH.
Qed.

Lemma scanSpaces_ink s :
  isASCII s -> startsInk s = true -> scanSpaces s = Stopped s.
Proof.
  unfold isASCII. destruct s as [|c s]; [done|]. simpl.
  intros [-> _]%orb_false_iff Hc. apply negb_true_iff in Hc. by rewrite Hc.
Qed.

Lemma startsInk_app a b : startsInk a = true -> startsInk (a +:+ b) = true.
Proof. by destruct a. Qed.

Lemma TrimSpace_between lead core trail :
  isASCII core -> startsInk core = true -> endsInk core = true ->
  blank lead = true -> blank trail = true ->
  TrimSpace (lead +:+ core +:+ trail) = core.
Proof.
  intros Ha Hs He Hl Ht. unfold TrimSpace.
  assert (Hb : isASCII trail).
  { unfold isASCII. unfold blank in Ht. induction trail as [|c t IH]; [done|].
    simpl in *. rewrite negb_orb, negb_involutive in Ht.
    apply andb_true_iff in Ht as [Hc Ht]. by rewrite (asciiSpace_ASCII c Hc), IH. }
  rewrite scanSpaces_blank_app by done.
  rewrite scanSpaces_ink; [|by apply isASCII_app | by apply startsInk_app].
  rewrite reverse_app, scanSpaces_blank_app by (by rewrite blank_reverse).
  rewrite scanSpaces_ink; [apply reverse_involutive | by apply isASCII_reverse | done].
Qed.

Lemma blank_startsInk s : blank s = true -> startsInk s = false.
Proof.
  unfold blank. destruct s as [|c s]; [done|]. simpl.
  rewrite negb_orb, negb_involutive. by intros [-> _]%andb_true_iff.
Qed.

(** A line that starts with a byte that is no space is what [TrimSpace]
    returns for it, followed by spaces. *)
Lemma TrimSpace_split x :
  isASCII x -> startsInk x = true ->
  exists trail,
    x = TrimSpace x +:+ trail /\ blank trail = true
    /\ startsInk (TrimSpace x) = true /\ endsInk (TrimSpace x) = true.
Proof.
  intros Ha Hs.
  destruct (TrimSpace_ASCII x Ha) as (lead & trail & Heq & Hl & Ht & Hink).
  assert (lead = EmptyString) as ->.
  { destruct lead as [|c lead]; [done|]. rewrite Heq in Hs.
    apply blank_startsInk in Hl. rewrite append_cons in Hs.
    simpl in Hs, Hl. congruence. }
  rewrite append_nil in Heq. exists trail.
  destruct Hink as [Hnil|[? ?]]; [|done].
  rewrite Hnil, append_nil in Heq. rewrite Heq in Hs.
  by rewrite blank_startsInk in Hs.
Qed.

Lemma TrimSpace_idem x : isASCII x -> TrimSpace (TrimSpace x) = TrimSpace x.
Proof.
  intros Ha. destruct (TrimSpace_ASCII x Ha) as (_ & _ & _ & _ & _ & Hink).
  destruct Hink as [->|[Hs He]]; [done|].
  rewrite <- (append_empty (TrimSpace x)) at 1.
  apply (TrimSpace_between EmptyString); try done. by apply TrimSpace_isASCII.
Qed.

Lemma addLine_TrimSpace models line :
  isASCII line -> addLine models (TrimSpace line) = addLine models line.
Proof. intros Ha. unfold addLine. by rewrite TrimSpace_idem. Qed.

Lemma Contains_false_app a b c sep :
  Contains (a +:+ b +:+ c) sep = false -> Contains b sep = false.
Proof.
  intros Hc. destruct (Contains b sep) eqn:Hb; [|done].
  apply Contains_spec in Hb as (x & y & ->).
  assert (Contains (a +:+ (x +:+ sep +:+ y) +:+ c) sep = true) as Ht; [|congruence].
  apply Contains_spec. exists (a +:+ x), (y +:+ c).
  by rewrite !append_assoc.
Qed.

(** The first line feed of a text is the one that ends its first line. *)
Lemma Index_line l rest :
  Contains l LF = false -> Index (l +:+ LF +:+ rest) LF = Some (String.length l).
Proof.
  unfold Contains. induction l as [|c l IH]; intros Hl.
  - by rewrite Index_eq, append_nil, prefix_app.
  - destruct (Index (String c l) LF) eqn:Hi; [done|].
    apply Index_cons_None in Hi as [Hp Hi].
    rewrite Index_eq, append_cons.
    assert (String.prefix LF (String c (l +:+ LF +:+ rest)) = false) as ->.
    { unfold LF in *. rewrite prefix_cons in Hp |- *.
      destruct (ascii_dec _ c); [|done]. by rewrite prefix_nil in Hp. }
    rewrite IH by (by rewrite Hi). done.
Qed.

Lemma LF_nonempty : LF <> EmptyString.
Proof. discriminate. Qed.

Lemma Split_unlines lines : forall last,
  Forall (fun l => Contains l LF = false) lines ->
  Contains last LF = false ->
  Split (unlines lines +:+ last) LF = lines ++ [last].
Proof.
  induction lines as [|l lines IH]; intros last Hlines Hlast.
  - simpl. rewrite append_nil. by apply Split_without; [apply LF_nonempty|].
  - apply Forall_cons in Hlines as [Hl Hlines]. simpl.
    rewrite Split_unfold by apply LF_nonempty.
    rewrite !append_assoc, Index_line by done.
    rewrite take_app_length, drop_add, !drop_app_length.
    by rewrite IH.
Qed.

Lemma unlines_app a b : unlines (a ++ b) = unlines a +:+ unlines b.
Proof.
  induction a as [|l a IH]; [done|]. simpl. by rewrite IH, !append_assoc.
Qed.

Lemma isASCII_unlines lines : Forall isASCII lines -> isASCII (unlines lines).
Proof.
  induction 1 as [|l lines Hl _ IH]; [done|]. simpl.
  apply isASCII_app. split; [done|]. by apply isASCII_app.
Qed.

Lemma startsInk_unlines lines last :
  Forall (fun l => startsInk l = true) (lines ++ [last]) ->
  startsInk (unlines lines +:+ last) = true.
Proof.
  destruct lines as [|l lines]; simpl.
  - intros Hl. apply Forall_cons in Hl as [Hl _]. by rewrite append_nil.
  - intros Hl. apply Forall_cons in Hl as [Hl _]. rewrite !append_assoc.
    by apply startsInk_app.
Qed.

(** On a text of lines that start with a byte that is no space, the loop
    sees the lines one by one. *)
Lemma parseOllamaListOutput_lines lines :
  lines <> [] ->
  Forall (fun l => isASCII l /\ startsInk l = true /\ Contains l LF = false) lines ->
  parseOllamaListOutput (unlines lines) = foldl addLine [] lines.
Proof.
  intros Hne Hall.
  destruct (exists_last Hne) as (init & x & ->). clear Hne.
  apply Forall_app in Hall as [Hinit Hx].
  apply Forall_cons in Hx as [(Hxa & Hxs & Hxn) _].
  destruct (TrimSpace_split x Hxa Hxs) as (trail & Hx & Ht & Hs & He).
  assert (Hcore : TrimSpace (unlines (init ++ [x])) = unlines init +:+ TrimSpace x).
  { rewrite unlines_app. simpl. rewrite append_empty.
    rewrite Hx at 1. rewrite (append_assoc (TrimSpace x)).
    rewrite <- (append_assoc (unlines init)).
    rewrite <- (append_nil ((unlines init +:+ TrimSpace x) +:+ _)).
    apply TrimSpace_between.
    - apply isASCII_app. split; [|by apply TrimSpace_isASCII].
      apply isASCII_unlines. eapply Forall_impl; [exact Hinit|]. by intros l [? _].
    - apply startsInk_unlines. apply Forall_app. split.
      + eapply Forall_impl; [exact Hinit|]. by intros l (_ & ? & _).
      + by constructor.
    - unfold endsInk in *. rewrite reverse_app. apply startsInk_app. exact He.
    - done.
    - by rewrite blank_app, Ht. }
  unfold parseOllamaListOutput. rewrite Hcore.
  rewrite Split_unlines.
  - by rewrite !foldl_app; simpl; rewrite addLine_TrimSpace.
  - eapply Forall_impl; [exact Hinit|]. by intros l (_ & _ & ?).
  - rewrite Hx in Hxn. rewrite <- (append_nil (TrimSpace x +:+ trail)) in Hxn.
    by apply Contains_false_app in Hxn.
Qed.
End Table.

(** ** The launcher: the table of models *)

Section Rows.
Context `{Unicode}.
Import Strings Space launcher.

(** A word without space that starts a text ending at a space starts the
    part before the space. *)
Lemma prefix_word p : forall a t,
  hasSpace p = false -> startsInk t = false ->
  String.prefix p (a +:+ t) = true -> String.prefix p a = true.
Proof.
  unfold hasSpace. induction p as [|c p IH]; intros a t Hp Ht.
  - intros _. apply prefix_nil.
  - simpl in Hp. apply orb_false_iff in Hp as [Hc Hp].
    destruct a as [|d a].
    + rewrite append_nil. destruct t as [|d t]; [done|].
      rewrite prefix_cons. destruct (ascii_dec c d) as [->|]; [|done].
      simpl in Ht. by rewrite Hc in Ht.
    + rewrite append_cons, !prefix_cons. destruct (ascii_dec c d); [|done].
      by apply IH.
Qed.

Lemma fieldsLoop_word n : forall field s,
  hasSpace n = false ->
  fieldsLoop field (n +:+ s) = fieldsLoop (field +:+ n) s.
Proof.
  unfold hasSpace. induction n as [|c n IH]; intros field s Hn.
  - by rewrite append_nil, append_empty.
  - simpl in Hn. apply orb_false_iff in Hn as [Hc Hn].
    rewrite append_cons. simpl. rewrite Hc, IH by done.
    by rewrite append_assoc.
Qed.

Lemma fieldsLoop_blank trail : forall field,
  blank trail = true -> fieldsLoop field trail = fieldsLoop field EmptyString.
Proof.
  unfold blank. induction trail as [|c t IH]; intros field; [done|]. simpl.
  rewrite negb_orb, negb_involutive. intros [Hc Ht]%andb_true_iff.
  rewrite Hc. destruct (String.eqb field ""); by rewrite IH.
Qed.

Lemma fieldsLoop_trail s trail : forall field,
  blank trail = true -> fieldsLoop field (s +:+ trail) = fieldsLoop field s.
Proof.
  induction s as [|c s IH]; intros field Ht.
  - rewrite append_nil. by apply fieldsLoop_blank.
  - rewrite append_cons. simpl.
    destruct (asciiSpace c); [destruct (String.eqb field "")|]; by rewrite IH.
Qed.

Lemma startsInk_nonempty s : startsInk s = true -> String.eqb s "" = false.
Proof. by destruct s. Qed.

Lemma startsInk_word n :
  n <> EmptyString -> hasSpace n = false -> startsInk n = true.
Proof.
  unfold hasSpace. destruct n as [|c n]; [done|]. simpl.
  by intros _ [-> _]%orb_false_iff.
Qed.

(** A header line is skipped. *)
Lemma addLine_header models header :
  isASCII header -> HasPrefix header "NAME" = true ->
  addLine models header = models.
Proof.
  intros Ha Hp. unfold addLine.
  assert (Hs : startsInk header = true).
  { unfold HasPrefix in Hp. by apply prefix_split in Hp as [r ->]. }
  destruct (TrimSpace_split header Ha Hs) as (trail & Hx & Ht & _ & _).
  assert (HasPrefix (TrimSpace header) "NAME" = true) as ->.
  { unfold HasPrefix in *. rewrite Hx in Hp.
    by apply prefix_word in Hp; [| |apply blank_startsInk]. }
  by rewrite orb_true_r.
Qed.

(** A row with a well-formed name adds that name. *)
Lemma addLine_row models row :
  wellFormedRow row -> addLine models (tableRow row) = models ++ [row.1].
Proof.
  destruct row as [n d]. unfold wellFormedRow, tableRow. simpl.
  intros ((Hne & Hsp & Hhead & Hname & Hdash) & Ha & _ & Hrule).
  assert (Hs : startsInk (n +:+ " " +:+ d) = true)
    by (by apply startsInk_app, startsInk_word).
  destruct (TrimSpace_split _ Ha Hs) as (trail & Hx & Ht & Hts & _).
  pose proof (TrimSpace_isASCII _ Ha) as HTa.
  unfold addLine.
  rewrite (startsInk_nonempty _ Hts).
  assert (HasPrefix (TrimSpace (n +:+ " " +:+ d)) "NAME" = false) as ->.
  { destruct (HasPrefix (TrimSpace _) "NAME") eqn:Hp; [|done].
    unfold HasPrefix in *. apply prefix_app_l with (s := trail) in Hp.
    rewrite <- Hx in Hp. apply prefix_word in Hp; [congruence|done..]. }
  assert (Contains (TrimSpace (n +:+ " " +:+ d)) "----" = false) as ->.
  { rewrite Hx, <- (append_nil (TrimSpace _ +:+ trail)) in Hrule.
    by apply Contains_false_app in Hrule. }
  assert (Fields (TrimSpace (n +:+ " " +:+ d)) = n :: fieldsLoop "" d) as ->.
  { unfold Fields. rewrite HTa.
    rewrite <- (fieldsLoop_trail _ trail) by done. rewrite <- Hx.
    rewrite fieldsLoop_word, append_nil by done. simpl.
    by destruct n. }
  simpl. destruct (String.eqb_spec n "Name"); [done|]. by rewrite Hdash.
Qed.

Lemma foldl_addLine_rows rows : forall models,
  Forall wellFormedRow rows ->
  foldl addLine models (tableRow <$> rows) = models ++ rows.*1.
Proof.
  induction rows as [|row rows IH]; intros models Hrows.
  - by rewrite app_nil_r.
  - apply Forall_cons in Hrows as [Hrow Hrows]. csimpl.
    rewrite addLine_row, IH by done. by rewrite <- app_assoc.
Qed.

(** X23: from the table that [ollama list] prints, a header line that
    starts with "NAME" and one line per model, each ended by a line feed,
    [parseOllamaListOutput] returns the names of the models, in the order
    of the rows, and [getRecommendModel] the first of them. *)
Theorem parseOllamaListOutput_table header rows :
  isASCII header -> HasPrefix header "NAME" = true ->
  Contains header LF = false ->
  Forall wellFormedRow rows ->
  parseOllamaListOutput (unlines (header :: (tableRow <$> rows))) = rows.*1
  /\ getRecommendModel
       (parseOllamaListOutput (unlines (header :: (tableRow <$> rows))))
     = default EmptyString (head rows.*1).
Proof.
  intros Ha Hp Hn Hrows.
  assert (Hparse : parseOllamaListOutput (unlines (header :: (tableRow <$> rows)))
                   = rows.*1).
  { rewrite parseOllamaListOutput_lines; [|done|].
    - simpl. rewrite addLine_header by done. by apply foldl_addLine_rows.
    - constructor.
      + split_and!; [done| |done].
        unfold HasPrefix in Hp. by apply prefix_split in Hp as [r ->].
      + apply Forall_fmap. eapply Forall_impl; [exact Hrows|].
        intros [n d] ((Hne & Hsp & _) & Hra & Hrn & _). split_and!; [done| |done].
        by apply startsInk_app, startsInk_word. }
  split; [done|]. rewrite Hparse. by destruct rows.
Qed.
End Rows.

(** ** The launcher on a scripted listing *)

Section OnTheScriptedListing.
Import launcher ScriptedListing.
#[local] Existing Instance unicode.

Lemma parseOllamaListOutput_names_witness :
  Forall wellFormedName (parseOllamaListOutput ruled).
Proof. exact (parseOllamaListOutput_names ruled eq_refl). Defined.

Lemma parseOllamaListOutput_table_witness :
  parseOllamaListOutput (unlines (header :: (tableRow <$> rows)))
  = ["qwen3:1.7b"; "llama3.2:latest"]
  /\ getRecommendModel
       (parseOllamaListOutput (unlines (header :: (tableRow <$> rows))))
     = "qwen3:1.7b".
Proof.
  apply (parseOllamaListOutput_table header rows);
    [reflexivity | reflexivity | reflexivity |].
  repeat constructor; discriminate.
Defined.
End OnTheScriptedListing.

(** ** The filesystem tool server *)

Section ServerFacts.
Context `{fsserver.FileSystem}.
Import fsserver.

Lemma resolvePath_pure path w :
  resolvePath path w = ((resolvePath path w).1.1, w, []).
Proof.
  unfold resolvePath. destruct (Strings.HasPrefix path "~"); [|done].
  by destruct (os_UserHomeDir w).
Qed.

Ltac handler :=
  unfold handleReadFile, handleListDirectory, handleGetFileInfo,
    handleSearchFiles, handleWriteFile, handleEditFile;
  unfold bnd at 1;
  match goal with
  | |- context [resolvePath ?p ?w] => rewrite (resolvePath_pure p w)
  end;
  unfold bnd, unit_, Stat_, ReadFile, ReadDir, MkdirAll, WriteFile, Walk;
  repeat case_match; simplify_eq/=.

(** X24: the handlers that read ask for no operation that changes the
    file system: whatever the path, the pattern and the state of the file
    system, they create no directory and write no file. *)
Theorem reading_handlers_never_write path recursive pattern w :
  Forall readOnly (handleReadFile path w).2
  /\ Forall readOnly (handleListDirectory path recursive w).2
  /\ Forall readOnly (handleGetFileInfo path w).2
  /\ Forall readOnly (handleSearchFiles path pattern w).2.
Proof. split_and!; handler; by repeat constructor. Qed.

(** X25: every operation that a handler asks for is on the path that
    [resolvePath] returned for the argument, or, for the creation of
    directories, on the directory above it; when the path cannot be
    resolved, the file system is not touched. *)
Theorem handlers_work_on_the_resolved_path path recursive pattern content w :
  let traces :=
    [(handleReadFile path w).2; (handleListDirectory path recursive w).2;
     (handleGetFileInfo path w).2; (handleSearchFiles path pattern w).2;
     (handleWriteFile path content w).2; (handleEditFile path content w).2] in
  match (resolvePath path w).1.1 with
  | Err _ => Forall (fun tr => tr = []) traces
  | Ok absPath => Forall (Forall (onPath absPath)) traces
  end.
Proof.
  cbv zeta. destruct (resolvePath path w).1.1 as [absPath|err] eqn:Hres;
    do 6 (apply Forall_cons; split; [handler; by repeat constructor|]);
    apply List.Forall_nil.
Qed.

(** X26: [handleEditFile] replaces, it does not edit: it never reads the
    file and never creates a directory.  When [os.Stat] reports that the
    file does not exist, nothing is written and the result is an error;
    in every other case the given content is written once, to the resolved
    path, and the result is an error exactly when that write fails. *)
Theorem handleEditFile_replaces path content w absPath :
  (resolvePath path w).1.1 = Ok absPath ->
  ((exists err, (os_Stat absPath w).1 = StatErr err true)
   /\ (handleEditFile path content w).2 = [OpStat absPath]
   /\ (handleEditFile path content w).1.1
      = errorResult ("文件不存在: " +:+ absPath))
  \/ ((forall err, (os_Stat absPath w).1 <> StatErr err true)
      /\ (handleEditFile path content w).2
         = [OpStat absPath; OpWriteFile absPath content 420]
      /\ (IsError (handleEditFile path content w).1.1 = false
          <-> (os_WriteFile absPath content 420 (os_Stat absPath w).2).1 = None)).
Proof.
  intros Hres. unfold handleEditFile, bnd.
  rewrite (resolvePath_pure path w), Hres.
  unfold unit_, Stat_, WriteFile.
  destruct (os_Stat absPath w) as [[info|err [|]] w1]; simpl.
  - right. destruct (os_WriteFile absPath content 420 w1) as [[e|] w2];
      simpl; (split_and!; [done | done | by split]).
  - left. split_and!; [by eexists | done..].
  - right. destruct (os_WriteFile absPath content 420 w1) as [[e|] w2];
      simpl; (split_and!; [done | done | by split]).
Qed.

(** X27: [handleWriteFile] first creates the directories above the
    resolved path; it writes the file only when that succeeded, once and
    with the given content, and reports success, naming the path, exactly
    when both operations succeeded. *)
Theorem handleWriteFile_creates_directories path content w absPath :
  (resolvePath path w).1.1 = Ok absPath ->
  let made := os_MkdirAll (filepath_Dir absPath) 493 w in
  match made.1 with
  | Some err =>
      handleWriteFile path content w
      = (errorResult ("无法创建目录: " +:+ err), made.2,
         [OpMkdirAll (filepath_Dir absPath) 493])
  | None =>
      (handleWriteFile path content w).2
      = [OpMkdirAll (filepath_Dir absPath) 493; OpWriteFile absPath content 420]
      /\ ((os_WriteFile absPath content 420 made.2).1 = None ->
          (handleWriteFile path content w).1.1
          = textResult ("成功写入文件: " +:+ absPath))
      /\ ((os_WriteFile absPath content 420 made.2).1 <> None ->
          IsError (handleWriteFile path content w).1.1 = true)
  end.
Proof.
  intros Hres. unfold handleWriteFile, bnd.
  rewrite (resolvePath_pure path w), Hres.
  unfold unit_, MkdirAll, WriteFile. simpl.
  destruct (os_MkdirAll (filepath_Dir absPath) 493 w) as [[e|] w1]; simpl; [done|].
  destruct (os_WriteFile absPath content 420 w1) as [[e|] w2]; simpl;
    by split_and!.
Qed.

Lemma walkLoop_searchVisit pattern visits : forall matches,
  (walkLoop (searchVisit pattern) matches visits).2 = None
  /\ ((forall name, isErr (filepath_Match pattern name) = true) ->
      (walkLoop (searchVisit pattern) matches visits).1 = matches).
Proof.
  induction visits as [|[p r] visits IH]; intros matches; [done|].
  simpl. unfold searchVisit at 1 3.
  destruct r as [info|err]; [|apply IH].
  destruct (fi_IsDir info); [apply IH|].
  destruct (filepath_Match pattern (fi_Name info)) as [[|]|err] eqn:Hm;
    try apply IH.
  split; [apply IH|]. intros Hbad. specialize (Hbad (fi_Name info)).
  by rewrite Hm in Hbad.
Qed.

(** X28: once the search has reached its walk it does not fail: what
    cannot be read and names that the pattern cannot be matched with are
    passed over, and the branch that reports a failed search is never
    taken.  With a pattern that [filepath.Match] rejects for every name,
    the answer is that no file was found. *)
Theorem handleSearchFiles_passes_over path pattern w :
  (IsError (handleSearchFiles path pattern w).1.1 = false
   <-> exists root, OpWalk root ∈ (handleSearchFiles path pattern w).2)
  /\ ((forall name, isErr (filepath_Match pattern name) = true) ->
      IsError (handleSearchFiles path pattern w).1.1 = false ->
      Text (handleSearchFiles path pattern w).1.1
      = "搜索结果 (模式: " +:+ pattern +:+ "):" +:+ LF +:+ LF
        +:+ "未找到匹配的文件" +:+ LF).
Proof.
  unfold handleSearchFiles, bnd.
  rewrite (resolvePath_pure path w).
  destruct (resolvePath path w).1.1 as [absPath|err]; simpl.
  2:{ split; [split; [done|]|done]. intros [root Hin]. by apply elem_of_nil in Hin. }
  unfold unit_, Stat_, Walk.
  destruct (os_Stat absPath w) as [[info|err [|]] w1]; simpl.
  - destruct (fi_IsDir info); simpl.
    + destruct (filepath_Walk_visits absPath w1) as [visits w2].
      destruct (walkLoop_searchVisit pattern visits []) as [Hnone Hbad].
      destruct (walkLoop (searchVisit pattern) [] visits) as [matches err].
      simpl in *. subst err. simpl. split.
      * split; [intros _|done]. exists absPath. set_solver.
      * intros Hall _. rewrite (Hbad Hall). simpl. by rewrite !append_assoc.
    + split; [split; [done|]|done]. by intros [root [=]%list_elem_of_singleton].
  - split; [split; [done|]|done]. by intros [root [=]%list_elem_of_singleton].
  - split; [split; [done|]|done]. by intros [root [=]%list_elem_of_singleton].
Qed.

(** X29: the router finds the way back to every tool of this server:
    under a provider name without separator that does not end in an
    underscore, each name that [registerTools] offers parses to the
    provider and the tool. *)
Theorem registerTools_are_routable p :
  Strings.Contains p separator = false -> Strings.HasSuffix p "_" = false ->
  Forall (fun tool => parseToolName (qualifiedName p tool) = Ok (p, tool))
    registerTools.
Proof.
  intros Hp Hs. unfold registerTools.
  repeat constructor; by apply parseToolName_qualifiedName.
Qed.
End ServerFacts.

(** ** The filesystem tool server on a scripted file system *)

Section OnTheScriptedFiles.
Import Scripted fsserver ScriptedFiles.
#[local] Existing Instance data.
#[local] Existing Instance fileSystem.

Lemma handleEditFile_replaces_witness :
  ((exists err, (os_Stat "/work/a.txt" disk).1 = StatErr err true)
   /\ (handleEditFile "a.txt" "bye" disk).2 = [OpStat "/work/a.txt"]
   /\ (handleEditFile "a.txt" "bye" disk).1.1
      = errorResult ("文件不存在: " +:+ "/work/a.txt"))
  \/ ((forall err, (os_Stat "/work/a.txt" disk).1 <> StatErr err true)
      /\ (handleEditFile "a.txt" "bye" disk).2
         = [OpStat "/work/a.txt"; OpWriteFile "/work/a.txt" "bye" 420]
      /\ (IsError (handleEditFile "a.txt" "bye" disk).1.1 = false
          <-> (os_WriteFile "/work/a.txt" "bye" 420
                 (os_Stat "/work/a.txt" disk).2).1 = None)).
Proof. exact (handleEditFile_replaces "a.txt" "bye" disk "/work/a.txt" eq_refl). Defined.

Lemma handleWriteFile_creates_directories_witness :
  (handleWriteFile "new/b.txt" "text" disk).2
  = [OpMkdirAll "/work/new" 493; OpWriteFile "/work/new/b.txt" "text" 420]
  /\ ((os_WriteFile "/work/new/b.txt" "text" 420 disk).1 = None ->
      (handleWriteFile "new/b.txt" "text" disk).1.1
      = textResult ("成功写入文件: " +:+ "/work/new/b.txt"))
  /\ ((os_WriteFile "/work/new/b.txt" "text" 420 disk).1 <> None ->
      IsError (handleWriteFile "new/b.txt" "text" disk).1.1 = true).
Proof.
  exact (handleWriteFile_creates_directories "new/b.txt" "text" disk
           "/work/new/b.txt" eq_refl).
Defined.

Lemma registerTools_are_routable_witness :
  Forall (fun tool => parseToolName (qualifiedName "filesystem" tool)
                      = Ok ("filesystem", tool))
    registerTools.
Proof. exact (registerTools_are_routable "filesystem" eq_refl eq_refl). Defined.
End OnTheScriptedFiles.
